(** * Automodrinth: proxy pool, pool refresher and fetch cycle

    A shallow embedding of the traffic loop of [server.js] (the
    proxy-rotating revision, and the cycle controller of the earlier
    direct-only revision) together with the properties that its
    specification states about the proxy pool, the pool refresher, the
    download step and the cycle controller.

    Conventions of the embedding:

    - A JavaScript string is the list of its UTF-16 code units; the
      pattern of the collector is a value of a small type of regular
      expressions, run by a backtracking matcher that is proved to
      compute the language of its pattern.
    - The functions of the server are computations of a state and
      exception monad over the global [state] object.  The outside (the
      clock, [Math.random], the network) is a record of oracles, each
      asked with the number of questions put so far; the requests, sleeps
      and timers are recorded in the order they are made.
    - An [async] function runs from its call to its return: the calls
      handed to [Promise.all] or [Promise.allSettled] are taken in the
      order of their array, a call that is not awaited is taken at the
      call, and every awaited promise settles.
    - An awaited call of an [async] function of the server may, besides
      what the code of that function throws, reject with an error that
      the outside injects ([fault]); a timer cannot.
    - Delays are rationals; [Math.random()] is a fraction in [[0,1)];
      the text of a log line or of an error is kept as its template and
      its arguments. *)

From Stdlib Require Import String Ascii.
From Stdlib Require Import List NArith ZArith QArith Qminmax Bool Arith Lia Lqa.
From Stdlib Require Import Permutation.
Import ListNotations.

Local Open Scope nat_scope.
Local Open Scope list_scope.

Set Implicit Arguments.

(* ================================================================== *)
(** * JavaScript strings *)
(* ================================================================== *)

(** A JavaScript string is a finite sequence of UTF-16 code units. *)
Definition jsstring := list N.

(** A literal of the source, all of whose characters are ASCII. *)
Definition js (s : string) : jsstring :=
  map N_of_ascii (list_ascii_of_string s).

Arguments js s%_string.

Definition jsstring_eq_dec : forall a b : jsstring, {a = b} + {a <> b} :=
  list_eq_dec N.eq_dec.

(** [a === b] on strings *)
Definition jsstring_eqb (a b : jsstring) : bool :=
  if jsstring_eq_dec a b then true else false.

Module JSString.

(** Code units removed by [String.prototype.trim]: the WhiteSpace and
    LineTerminator productions of ECMAScript. *)
Definition isWhiteSpace (c : N) : bool :=
  ((9 <=? c) && (c <=? 13) || (c =? 32) || (c =? 160) || (c =? 5760)
   || (8192 <=? c) && (c <=? 8202) || (c =? 8232) || (c =? 8233)
   || (c =? 8239) || (c =? 8287) || (c =? 12288) || (c =? 65279))%N.

Fixpoint trimStart (s : jsstring) : jsstring :=
  match s with
  | c :: s' => if isWhiteSpace c then trimStart s' else s
  | [] => []
  end.

Definition trimEnd (s : jsstring) : jsstring := rev (trimStart (rev s)).

(** [s.trim()] *)
Definition trim (s : jsstring) : jsstring := trimEnd (trimStart s).

(** [s.split(sep)] for a separator of one code unit: the pieces between
    the occurrences of [sep]; never the empty array. *)
Fixpoint split (sep : N) (s : jsstring) : list jsstring :=
  match s with
  | [] => [[]]
  | c :: s' =>
      if (c =? sep)%N then [] :: split sep s'
      else match split sep s' with
           | p :: ps => (c :: p) :: ps
           | [] => [[c]]
           end
  end.

Definition isLineBreak (c : N) : bool := ((c =? 13) || (c =? 10))%N.

(** [s.split(/[\r\n]+/)]: the pieces between the maximal runs of CR and
    LF; a run at either end leaves an empty piece there. *)
Fixpoint splitLines (s : jsstring) : list jsstring :=
  match s with
  | [] => [[]]
  | c :: s' =>
      if isLineBreak c then
        match s' with
        | c' :: _ => if isLineBreak c' then splitLines s'
                     else [] :: splitLines s'
        | [] => [] :: splitLines s'
        end
      else match splitLines s' with
           | p :: ps => (c :: p) :: ps
           | [] => [[c]]
           end
  end.

End JSString.

(* ================================================================== *)
(** * Regular expressions *)
(* ================================================================== *)

Module Regex.

(** The fragment of the pattern language that the source uses:
    character classes, concatenation and bounded repetition [r{lo,hi}]. *)
Inductive regex : Type :=
| Eps
| Class (p : N -> bool)
| Cat (r1 r2 : regex)
| Rep (lo hi : nat) (r : regex).

(** Words of [n] consecutive members of [L]. *)
Fixpoint pow (L : jsstring -> Prop) (n : nat) (s : jsstring) : Prop :=
  match n with
  | 0 => s = []
  | S n' => exists a b, s = a ++ b /\ L a /\ pow L n' b
  end.

(** The language of a pattern. *)
Fixpoint lang (r : regex) (s : jsstring) : Prop :=
  match r with
  | Eps => s = []
  | Class p => exists c, s = [c] /\ p c = true
  | Cat r1 r2 => exists a b, s = a ++ b /\ lang r1 a /\ lang r2 b
  | Rep lo hi r1 => exists n, lo <= n <= hi /\ pow (lang r1) n s
  end.

(** Backtracking matcher: every suffix of [s] left over by a match of
    [step] repeated between [lo] and [hi] times at the start of [s]. *)
Fixpoint repeat_match (step : jsstring -> list jsstring) (lo hi : nat)
         (s : jsstring) : list jsstring :=
  (if lo =? 0 then [s] else []) ++
  match hi with
  | 0 => []
  | S hi' => flat_map (repeat_match step (lo - 1) hi') (step s)
  end.

(** Every suffix of [s] left over by a match of [r] at the start of [s]. *)
Fixpoint rmatch (r : regex) (s : jsstring) : list jsstring :=
  match r with
  | Eps => [s]
  | Class p => match s with
               | c :: s' => if p c then [s'] else []
               | [] => []
               end
  | Cat r1 r2 => flat_map (rmatch r2) (rmatch r1 s)
  | Rep lo hi r1 => repeat_match (rmatch r1) lo hi s
  end.

(** [/^r$/.test(s)]: some match of [r] consumes the whole of [s]. *)
Definition test (r : regex) (s : jsstring) : bool :=
  existsb (fun rest => match rest with [] => true | _ => false end)
          (rmatch r s).

(** [\d] *)
Definition digit (c : N) : bool := ((48 <=? c) && (c <=? 57))%N.
(** A literal code unit. *)
Definition chr (k : N) (c : N) : bool := (c =? k)%N.

End Regex.

(* ================================================================== *)
(** * Values exchanged with the outside *)
(* ================================================================== *)

(** The message of an [Error]: the template literals of the source are
    kept as a template and its arguments. *)
Inductive ErrMsg : Type :=
| ErrText (s : jsstring)       (** the message of an error raised outside this code *)
| ErrHttp (status : N)         (** [`HTTP ${res.status}`] *)
| ErrTooSmallBytes (n : N)     (** [`Too small: ${buf.byteLength}b`] *)
| ErrTooSmall                  (** [`Too small`] *)
| ErrProjectApi (status : N)   (** [`Project API ${pr.status}`] *)
| ErrVersionsApi (status : N)  (** [`Versions API: ${versRes.status}`] *)
| ErrSuspicious (n : N)        (** [`Suspiciously small: ${n} bytes`] *)
| ErrTimeout.                  (** ['timeout'] *)

(** A thrown value: [e.name === 'AbortError'] and [e.message]. *)
Record Exn : Type := { exn_abort : bool; exn_message : ErrMsg }.

(** [e.name === 'AbortError' ? 'timeout' : e.message] *)
Definition reason (e : Exn) : ErrMsg :=
  if exn_abort e then ErrTimeout else exn_message e.

Inductive Result (A : Type) : Type :=
| Ok (a : A)
| Throw (e : Exn).
Arguments Ok {A} a.
Arguments Throw {A} e.

(** One entry of [files] of a version. *)
Record FileInfo : Type :=
  { url : jsstring; filename : jsstring; primary : bool }.

(** One version of the project, as the metadata API lists it; an absent
    [files] is the empty list, an absent [loaders] or [game_versions] is
    [None]. *)
Record Version : Type :=
  { files : list FileInfo;
    loaders : option (list jsstring);
    game_versions : option (list jsstring);
    version_number : jsstring }.

(** A parsed JSON body, by the shapes that the callers look at. *)
Inductive Json : Type :=
| JsonNull
| JsonProject (title : option jsstring)  (** an object, and its [title] *)
| JsonVersions (all : list Version)      (** an array of version objects *)
| JsonIp (origin : option jsstring).     (** an object; [origin] when it is a string *)

(** One [reader.read()] of a response body that is not yet at its end. *)
Inductive ReadResult : Type :=
| ReadChunk (len : N)
| ReadThrows (e : Exn).

(** A response: status line, and what each way of reading the body gives. *)
Record Response : Type :=
  { res_ok : bool;
    res_status : N;
    res_text : Result jsstring;          (** [await res.text()] *)
    res_json : Result Json;              (** [await res.json()] *)
    res_byteLength : Result N;           (** [(await res.arrayBuffer()).byteLength] *)
    res_body : option (list ReadResult)  (** [res.body]: the reads before [done] *)
  }.

(** Request headers: an object, as its list of keys and values. *)
Definition Headers := list (jsstring * jsstring).

(** The arguments of one call of [fetch]. *)
Record Request : Type :=
  { req_url : jsstring;
    req_agent : option jsstring;   (** the proxy URL of the agent, if any *)
    req_timeout : N;               (** milliseconds before the abort signal *)
    req_headers : Headers }.

(** [Math.random()]: the fraction [num / (num + gap + 1)], in [[0,1)]. *)
Record Unit01 : Type := { num : nat; gap : nat }.

Definition Unit01_to_Q (r : Unit01) : Q :=
  Z.of_nat (num r) # Pos.of_succ_nat (num r + gap r).

(** [Math.floor(r * n)] *)
Definition scale (r : Unit01) (n : nat) : nat :=
  (num r * n) / (num r + gap r + 1).

Inductive Callback : Type := CbRunCycle.

(** What the code does to the outside, in the order it does it. *)
Inductive Event : Type :=
| EvFetch (req : Request)
| EvSleep (ms : Q)
| EvSetTimeout (cb : Callback) (ms : Q).

(** The outside. Every oracle is asked with the number of questions put
    so far ([tick]), so that it may answer the same question differently
    each time. *)
Record Env : Type :=
  { date_now : nat -> jsstring;             (** [new Date().toISOString()] *)
    math_random : nat -> Unit01;            (** [Math.random()] *)
    sort_rank : nat -> nat -> nat;          (** the place a random comparator gives to the [i]-th element *)
    net : nat -> Request -> Result Response;(** how a [fetch] settles *)
    fault : nat -> option Exn               (** an error nobody expected, at an awaited call *)
  }.

(* ================================================================== *)
(** * The monad of the embedding: state, events, exceptions *)
(* ================================================================== *)

Record World (St : Type) : Type :=
  { state : St;                     (** the global [state] object *)
    tick : nat;                     (** questions put to the oracles so far *)
    trace : list Event;             (** what was done to the outside, oldest first *)
    timers : list (Callback * Q)    (** callbacks waiting in [setTimeout] *)
  }.

Definition M (St A : Type) : Type := Env -> World St -> Result A * World St.

Section Monad.
Variable St : Type.
Variables A B : Type.

Definition ret (a : A) : M St A := fun _ w => (Ok a, w).

Definition bind (m : M St A) (k : A -> M St B) : M St B :=
  fun env w =>
    match m env w with
    | (Ok a, w') => k a env w'
    | (Throw e, w') => (Throw e, w')
    end.

(** [throw e] *)
Definition throw (e : Exn) : M St A := fun _ w => (Throw e, w).

(** [try { m } catch (e) { h e }] *)
Definition try_catch (m : M St A) (h : Exn -> M St A) : M St A :=
  fun env w =>
    match m env w with
    | (Ok a, w') => (Ok a, w')
    | (Throw e, w') => h e env w'
    end.

(** Ask an oracle: the question number goes up by one. *)
Definition ask (f : Env -> nat -> A) : M St A :=
  fun env w =>
    (Ok (f env (tick w)),
     {| state := state w; tick := S (tick w); trace := trace w;
        timers := timers w |}).

Definition emit (ev : Event) : M St unit :=
  fun _ w =>
    (Ok tt,
     {| state := state w; tick := tick w; trace := trace w ++ [ev];
        timers := timers w |}).

Definition get : M St St := fun _ w => (Ok (state w), w).

Definition modify (f : St -> St) : M St unit :=
  fun _ w =>
    (Ok tt,
     {| state := f (state w); tick := tick w; trace := trace w;
        timers := timers w |}).

(** [await f(...)] for an async function [f] of this program: [f] runs,
    and the promise it returns may still reject for a reason that the
    code of [f] does not show. *)
Definition awaitCall (m : M St A) : M St A :=
  fun env w =>
    match m env w with
    | (Ok a, w') =>
        (match fault env (tick w') with
         | Some e => Throw e
         | None => Ok a
         end,
         {| state := state w'; tick := S (tick w'); trace := trace w';
            timers := timers w' |})
    | (Throw e, w') => (Throw e, w')
    end.

(** [f(...)] for an async function [f], not awaited: the caller sees
    neither the value nor a rejection.  The steps of [f] are taken at
    the call. *)
Definition spawn (m : M St A) : M St unit :=
  fun env w => (Ok tt, snd (m env w)).

End Monad.

Arguments ret {St A} a.
Arguments bind {St A B} m k.
Arguments throw {St A} e.
Arguments try_catch {St A} m h.
Arguments ask {St A} f.
Arguments emit {St} ev.
Arguments get {St}.
Arguments modify {St} f.
Arguments awaitCall {St A} m.
Arguments spawn {St A} m.

Declare Scope js_scope.
Delimit Scope js_scope with js_m.
Notation "x <- m ;; k" := (bind m (fun x => k))
  (at level 61, m at next level, right associativity) : js_scope.
Notation "m ;; k" := (bind m (fun _ => k))
  (at level 61, right associativity) : js_scope.
Local Open Scope js_scope.

Section Primitives.
Variable St : Type.

(** [new Date().toISOString()] *)
Definition now : M St jsstring := ask date_now.

(** [Math.random()] *)
Definition random : M St Unit01 := ask math_random.

(** [fetch(url, opts)]: resolves to a response, or rejects (network
    error, or [AbortError] when the abort timer fires first). *)
Definition fetch (req : Request) : M St Response :=
  emit (EvFetch req) ;;
  r <- ask (fun env n => net env n req) ;;
  match r with
  | Ok res => ret res
  | Throw e => throw e
  end.

(** [await sleep(ms)]: a timer only ever resolves. *)
Definition sleep (ms : Q) : M St unit := emit (EvSleep ms).

(** [setTimeout(cb, ms)] *)
Definition setTimeout (cb : Callback) (ms : Q) : M St unit :=
  emit (EvSetTimeout cb ms) ;;
  fun _ w =>
    (Ok tt,
     {| state := state w; tick := tick w; trace := trace w;
        timers := timers w ++ [(cb, ms)] |}).

(** Settle the value of a body read. *)
Definition settle (A : Type) (r : Result A) : M St A :=
  match r with
  | Ok a => ret a
  | Throw e => throw e
  end.

(** [if (c) m] *)
Definition when (c : bool) (m : M St unit) : M St unit :=
  if c then m else ret tt.

(** [await Promise.all(xs.map(f))], the calls of [f] taken in the order
    of [xs]; for an [f] that does not throw. *)
Fixpoint promiseAll (A B : Type) (f : A -> M St B) (xs : list A)
  : M St (list B) :=
  match xs with
  | [] => ret []
  | x :: xs' => y <- f x ;; ys <- promiseAll f xs' ;; ret (y :: ys)
  end.

(** [randEl(arr)]: [arr[Math.floor(Math.random() * arr.length)]] *)
Definition randEl (A : Type) (arr : list A) : M St (option A) :=
  r <- random ;; ret (nth_error arr (scale r (length arr))).

(** [jitter(ms, pct)]: [ms + (Math.random() - 0.5) * ms * pct], over the
    rationals. *)
Definition jitter (ms pct : Q) : M St Q :=
  r <- random ;; ret (ms + (Unit01_to_Q r - (1 # 2)) * ms * pct)%Q.

End Primitives.

Arguments now {St}.
Arguments random {St}.
Arguments fetch {St} req.
Arguments sleep {St} ms.
Arguments setTimeout {St} cb ms.
Arguments settle {St A} r.
Arguments when {St} c m.
Arguments promiseAll {St A B} f xs.
Arguments randEl {St A} arr.
Arguments jitter {St} ms pct.

(* ================================================================== *)
(** * The proxy-rotating server *)
(* ================================================================== *)

(** ** Configuration *)

Definition PROJECT_SLUG : jsstring := js "aurelium".
Definition MODRINTH_URL : jsstring := js "https://modrinth.com/plugin/" ++ PROJECT_SLUG.
Definition API_BASE : jsstring := js "https://api.modrinth.com/v2".
Definition INTERVAL_MS : N := 12000.
Definition DL_TIMEOUT : N := 20000.
Definition PROXY_REFRESH_EVERY : nat := 25.

Definition USER_AGENTS : list jsstring :=
  [ js "Mozilla/5.0 (Windows NT 10.0; Win64; x64) AppleWebKit/537.36 (KHTML, like Gecko) Chrome/122.0.0.0 Safari/537.36";
    js "Mozilla/5.0 (Macintosh; Intel Mac OS X 10_15_7) AppleWebKit/537.36 (KHTML, like Gecko) Chrome/121.0.0.0 Safari/537.36";
    js "Mozilla/5.0 (Windows NT 10.0; Win64; x64; rv:124.0) Gecko/20100101 Firefox/124.0";
    js "Mozilla/5.0 (X11; Linux x86_64) AppleWebKit/537.36 (KHTML, like Gecko) Chrome/120.0.0.0 Safari/537.36";
    js "Mozilla/5.0 (Macintosh; Intel Mac OS X 14_4) AppleWebKit/605.1.15 (KHTML, like Gecko) Version/17.4 Safari/605.1.15";
    js "Mozilla/5.0 (Windows NT 10.0; Win64; x64) AppleWebKit/537.36 (KHTML, like Gecko) Chrome/122.0.0.0 Safari/537.36 Edg/122.0.0.0";
    js "Mozilla/5.0 (iPhone; CPU iPhone OS 17_4 like Mac OS X) AppleWebKit/605.1.15 Version/17.4 Mobile/15E148 Safari/604.1" ].

Definition REFERERS : list jsstring :=
  [ js "https://www.google.com/";
    js "https://www.google.nl/";
    js "https://modrinth.com/";
    js "https://modrinth.com/plugins";
    js "https://discord.com/";
    js "https://www.reddit.com/r/admincraft/";
    [] ].

Definition PROXY_SOURCES : list jsstring :=
  [ js "https://api.proxyscrape.com/v3/free-proxy-list/get?request=displayproxies&protocol=http&timeout=5000&country=all&ssl=all&anonymity=elite,anonymous";
    js "https://raw.githubusercontent.com/TheSpeedX/PROXY-List/master/http.txt";
    js "https://raw.githubusercontent.com/clarketm/proxy-list/master/proxy-list-raw.txt";
    js "https://raw.githubusercontent.com/ShiftyTR/Proxy-List/master/http.txt";
    js "https://raw.githubusercontent.com/monosans/proxy-list/main/proxies/http.txt" ].

(** ** State *)

Inductive LogType : Type := info | ok | warn | err | dl.

(** The messages of the log, each a template of the source with its
    arguments. *)
Inductive LogMsg : Type :=
| MsgFetchingCandidates                 (** ['Fetching proxy candidates...'] *)
| MsgGotCandidates (n : nat)            (** [`Got ${n} candidates - testing up to 80`] *)
| MsgPoolReady (n : nat)                (** [`Proxy pool: ${n} working IPs ready`] *)
| MsgRefreshError (m : ErrMsg)          (** [`Proxy refresh error: ${e.message}`] *)
| MsgLoadingProject                     (** ['Loading project from Modrinth API...'] *)
| MsgLoaded (title : option jsstring) (n : nat)
                                        (** [`"${title}" - ${n} versions`] *)
| MsgView (n : nat) (status : N)           (** [`View #${n} - ${status}`] *)
| MsgViewFailed (m : ErrMsg)            (** [`View failed: ${reason}`] *)
| MsgNoVersions                         (** ['No versions'] *)
| MsgDownload (fname : jsstring) (loader gameVer : option jsstring)
                                        (** [`Download: ${fname} [${loader} ${gameVer}]`] *)
| MsgViaProxy (proxy : jsstring)        (** [`  via proxy ${proxy}`] *)
| MsgDownloadedVia (n : nat) (sizeKB : N) (proxy : jsstring)
                                        (** [`Download #${n} ... ${sizeKB}KB via ${proxy}`] *)
| MsgProxyDead (proxy : jsstring) (m : ErrMsg)
                                        (** [`  Proxy ${proxy} dead (${reason}) - removed`] *)
| MsgNoProxies                          (** ['  No proxies in pool - direct fallback (may not count uniquely)'] *)
| MsgDownloadedDirect (n : nat) (sizeKB : N) (** [`Download #${n} ... ${sizeKB}KB (direct - may deduplicate)`] *)
| MsgDownloadFailed (m : ErrMsg)        (** [`Download FAILED: ${reason}`] *)
| MsgCycle (n : nat)                    (** [`--- Cycle #${n} ---`] *)
| MsgReading (seconds : Q)              (** [`Reading for ${(readTime/1000).toFixed(1)}s...`] *)
| MsgCycleError (m : ErrMsg)            (** [`Cycle error: ${e.message}`] *)
| MsgNextIn (seconds : Q)               (** [`Next in ${(next/1000).toFixed(1)}s`] *)
| MsgPortReady (port : jsstring).       (** [`Port ${PORT} ready`] *)

Record LogEntry : Type :=
  { entry_ts : jsstring; entry_msg : LogMsg; entry_type : LogType }.

(** [state.lastDl] *)
Record DownloadRecord : Type :=
  { dl_filename : jsstring;
    dl_loader : option jsstring;
    dl_gameVer : option jsstring;
    dl_version : jsstring;
    dl_sizeKB : N;
    dl_via : jsstring;
    dl_ts : jsstring }.

(** The global [state] object; its field [log] is [state_log] here. *)
Record State : Type :=
  { views : nat; downloads : nat; dlFailed : nat; errors : nat; cycles : nat;
    startTime : nat;
    lastView : option jsstring;
    lastDl : option DownloadRecord;
    lastError : option ErrMsg;
    state_log : list LogEntry;
    versions : list Version;
    projectData : option Json;
    proxyPool : list jsstring;
    proxyTested : nat;
    proxyWorking : nat;
    proxyRefreshing : bool;
    lastProxyRefresh : option jsstring }.

(** The object literal that initialises [state]; [t0] is [Date.now()]. *)
Definition initialState (t0 : nat) : State :=
  {| views := 0; downloads := 0; dlFailed := 0; errors := 0; cycles := 0;
     startTime := t0;
     lastView := None; lastDl := None; lastError := None;
     state_log := []; versions := []; projectData := None;
     proxyPool := []; proxyTested := 0; proxyWorking := 0;
     proxyRefreshing := false; lastProxyRefresh := None |}.

(** Assignments to one field of [state]. *)
Definition set_views (v : nat) (s : State) : State :=
  {| views := v; downloads := downloads s; dlFailed := dlFailed s;
     errors := errors s; cycles := cycles s; startTime := startTime s;
     lastView := lastView s; lastDl := lastDl s; lastError := lastError s;
     state_log := state_log s; versions := versions s;
     projectData := projectData s; proxyPool := proxyPool s;
     proxyTested := proxyTested s; proxyWorking := proxyWorking s;
     proxyRefreshing := proxyRefreshing s;
     lastProxyRefresh := lastProxyRefresh s |}.

Definition set_downloads (v : nat) (s : State) : State :=
  {| views := views s; downloads := v; dlFailed := dlFailed s;
     errors := errors s; cycles := cycles s; startTime := startTime s;
     lastView := lastView s; lastDl := lastDl s; lastError := lastError s;
     state_log := state_log s; versions := versions s;
     projectData := projectData s; proxyPool := proxyPool s;
     proxyTested := proxyTested s; proxyWorking := proxyWorking s;
     proxyRefreshing := proxyRefreshing s;
     lastProxyRefresh := lastProxyRefresh s |}.

Definition set_dlFailed (v : nat) (s : State) : State :=
  {| views := views s; downloads := downloads s; dlFailed := v;
     errors := errors s; cycles := cycles s; startTime := startTime s;
     lastView := lastView s; lastDl := lastDl s; lastError := lastError s;
     state_log := state_log s; versions := versions s;
     projectData := projectData s; proxyPool := proxyPool s;
     proxyTested := proxyTested s; proxyWorking := proxyWorking s;
     proxyRefreshing := proxyRefreshing s;
     lastProxyRefresh := lastProxyRefresh s |}.

Definition set_errors (v : nat) (s : State) : State :=
  {| views := views s; downloads := downloads s; dlFailed := dlFailed s;
     errors := v; cycles := cycles s; startTime := startTime s;
     lastView := lastView s; lastDl := lastDl s; lastError := lastError s;
     state_log := state_log s; versions := versions s;
     projectData := projectData s; proxyPool := proxyPool s;
     proxyTested := proxyTested s; proxyWorking := proxyWorking s;
     proxyRefreshing := proxyRefreshing s;
     lastProxyRefresh := lastProxyRefresh s |}.

Definition set_cycles (v : nat) (s : State) : State :=
  {| views := views s; downloads := downloads s; dlFailed := dlFailed s;
     errors := errors s; cycles := v; startTime := startTime s;
     lastView := lastView s; lastDl := lastDl s; lastError := lastError s;
     state_log := state_log s; versions := versions s;
     projectData := projectData s; proxyPool := proxyPool s;
     proxyTested := proxyTested s; proxyWorking := proxyWorking s;
     proxyRefreshing := proxyRefreshing s;
     lastProxyRefresh := lastProxyRefresh s |}.

Definition set_lastView (v : option jsstring) (s : State) : State :=
  {| views := views s; downloads := downloads s; dlFailed := dlFailed s;
     errors := errors s; cycles := cycles s; startTime := startTime s;
     lastView := v; lastDl := lastDl s; lastError := lastError s;
     state_log := state_log s; versions := versions s;
     projectData := projectData s; proxyPool := proxyPool s;
     proxyTested := proxyTested s; proxyWorking := proxyWorking s;
     proxyRefreshing := proxyRefreshing s;
     lastProxyRefresh := lastProxyRefresh s |}.

Definition set_lastDl (v : option DownloadRecord) (s : State) : State :=
  {| views := views s; downloads := downloads s; dlFailed := dlFailed s;
     errors := errors s; cycles := cycles s; startTime := startTime s;
     lastView := lastView s; lastDl := v; lastError := lastError s;
     state_log := state_log s; versions := versions s;
     projectData := projectData s; proxyPool := proxyPool s;
     proxyTested := proxyTested s; proxyWorking := proxyWorking s;
     proxyRefreshing := proxyRefreshing s;
     lastProxyRefresh := lastProxyRefresh s |}.

Definition set_lastError (v : option ErrMsg) (s : State) : State :=
  {| views := views s; downloads := downloads s; dlFailed := dlFailed s;
     errors := errors s; cycles := cycles s; startTime := startTime s;
     lastView := lastView s; lastDl := lastDl s; lastError := v;
     state_log := state_log s; versions := versions s;
     projectData := projectData s; proxyPool := proxyPool s;
     proxyTested := proxyTested s; proxyWorking := proxyWorking s;
     proxyRefreshing := proxyRefreshing s;
     lastProxyRefresh := lastProxyRefresh s |}.

Definition set_log (v : list LogEntry) (s : State) : State :=
  {| views := views s; downloads := downloads s; dlFailed := dlFailed s;
     errors := errors s; cycles := cycles s; startTime := startTime s;
     lastView := lastView s; lastDl := lastDl s; lastError := lastError s;
     state_log := v; versions := versions s;
     projectData := projectData s; proxyPool := proxyPool s;
     proxyTested := proxyTested s; proxyWorking := proxyWorking s;
     proxyRefreshing := proxyRefreshing s;
     lastProxyRefresh := lastProxyRefresh s |}.

Definition set_versions (v : list Version) (s : State) : State :=
  {| views := views s; downloads := downloads s; dlFailed := dlFailed s;
     errors := errors s; cycles := cycles s; startTime := startTime s;
     lastView := lastView s; lastDl := lastDl s; lastError := lastError s;
     state_log := state_log s; versions := v;
     projectData := projectData s; proxyPool := proxyPool s;
     proxyTested := proxyTested s; proxyWorking := proxyWorking s;
     proxyRefreshing := proxyRefreshing s;
     lastProxyRefresh := lastProxyRefresh s |}.

Definition set_projectData (v : option Json) (s : State) : State :=
  {| views := views s; downloads := downloads s; dlFailed := dlFailed s;
     errors := errors s; cycles := cycles s; startTime := startTime s;
     lastView := lastView s; lastDl := lastDl s; lastError := lastError s;
     state_log := state_log s; versions := versions s;
     projectData := v; proxyPool := proxyPool s;
     proxyTested := proxyTested s; proxyWorking := proxyWorking s;
     proxyRefreshing := proxyRefreshing s;
     lastProxyRefresh := lastProxyRefresh s |}.

Definition set_proxyPool (v : list jsstring) (s : State) : State :=
  {| views := views s; downloads := downloads s; dlFailed := dlFailed s;
     errors := errors s; cycles := cycles s; startTime := startTime s;
     lastView := lastView s; lastDl := lastDl s; lastError := lastError s;
     state_log := state_log s; versions := versions s;
     projectData := projectData s; proxyPool := v;
     proxyTested := proxyTested s; proxyWorking := proxyWorking s;
     proxyRefreshing := proxyRefreshing s;
     lastProxyRefresh := lastProxyRefresh s |}.

Definition set_proxyTested (v : nat) (s : State) : State :=
  {| views := views s; downloads := downloads s; dlFailed := dlFailed s;
     errors := errors s; cycles := cycles s; startTime := startTime s;
     lastView := lastView s; lastDl := lastDl s; lastError := lastError s;
     state_log := state_log s; versions := versions s;
     projectData := projectData s; proxyPool := proxyPool s;
     proxyTested := v; proxyWorking := proxyWorking s;
     proxyRefreshing := proxyRefreshing s;
     lastProxyRefresh := lastProxyRefresh s |}.

Definition set_proxyWorking (v : nat) (s : State) : State :=
  {| views := views s; downloads := downloads s; dlFailed := dlFailed s;
     errors := errors s; cycles := cycles s; startTime := startTime s;
     lastView := lastView s; lastDl := lastDl s; lastError := lastError s;
     state_log := state_log s; versions := versions s;
     projectData := projectData s; proxyPool := proxyPool s;
     proxyTested := proxyTested s; proxyWorking := v;
     proxyRefreshing := proxyRefreshing s;
     lastProxyRefresh := lastProxyRefresh s |}.

Definition set_proxyRefreshing (v : bool) (s : State) : State :=
  {| views := views s; downloads := downloads s; dlFailed := dlFailed s;
     errors := errors s; cycles := cycles s; startTime := startTime s;
     lastView := lastView s; lastDl := lastDl s; lastError := lastError s;
     state_log := state_log s; versions := versions s;
     projectData := projectData s; proxyPool := proxyPool s;
     proxyTested := proxyTested s; proxyWorking := proxyWorking s;
     proxyRefreshing := v;
     lastProxyRefresh := lastProxyRefresh s |}.

Definition set_lastProxyRefresh (v : option jsstring) (s : State) : State :=
  {| views := views s; downloads := downloads s; dlFailed := dlFailed s;
     errors := errors s; cycles := cycles s; startTime := startTime s;
     lastView := lastView s; lastDl := lastDl s; lastError := lastError s;
     state_log := state_log s; versions := versions s;
     projectData := projectData s; proxyPool := proxyPool s;
     proxyTested := proxyTested s; proxyWorking := proxyWorking s;
     proxyRefreshing := proxyRefreshing s;
     lastProxyRefresh := v |}.

(** The computations of this server. *)
Definition JS (A : Type) : Type := M State A.

(** ** Logging *)

(** [entries.unshift(entry); if (entries.length > cap) entries.pop()] *)
Definition unshiftCapped (A : Type) (cap : nat) (entry : A) (entries : list A)
  : list A :=
  let entries := entry :: entries in
  if cap <? length entries then removelast entries else entries.

(** [log(msg, type)]: the entry goes to the front of [state.log], which
    keeps at most 150 entries.  The line that [console.log] prints carries
    the same entry and is not modelled. *)
Definition log (msg : LogMsg) (type : LogType) : JS unit :=
  ts <- now ;;
  modify (fun s =>
    set_log (unshiftCapped 150
               {| entry_ts := ts; entry_msg := msg; entry_type := type |}
               (state_log s)) s).

(** ** Helpers *)

(** [o[k] = v] on an object given by the list of its properties. *)
Fixpoint assign (k v : jsstring) (o : Headers) : Headers :=
  match o with
  | [] => [(k, v)]
  | (k', v') :: o' =>
      if jsstring_eqb k' k then (k, v) :: o' else (k', v') :: assign k v o'
  end.

(** [{...o, ...extra}] *)
Definition spread (o extra : Headers) : Headers :=
  fold_left (fun acc kv => assign (fst kv) (snd kv) acc) extra o.

(** The string that a template shows for a value that may be [undefined]. *)
Definition orUndefined (v : option jsstring) : jsstring :=
  match v with Some x => x | None => js "undefined" end.

(** [makeHeaders(extra)] *)
Definition makeHeaders (extra : Headers) : JS Headers :=
  ua <- randEl USER_AGENTS ;;
  lang <- randEl [ js "en-US,en;q=0.9"; js "en-GB,en;q=0.9";
                   js "nl-NL,nl;q=0.8,en;q=0.7" ] ;;
  ref <- randEl REFERERS ;;
  ret (spread
         [ (js "User-Agent", orUndefined ua);
           (js "Accept", js "text/html,application/xhtml+xml,application/xml;q=0.9,image/webp,*/*;q=0.8");
           (js "Accept-Language", orUndefined lang);
           (js "Accept-Encoding", js "gzip, deflate, br");
           (js "Cache-Control", js "no-cache");
           (js "Pragma", js "no-cache");
           (js "Referer", orUndefined ref);
           (js "DNT", js "1") ]
         extra).

(** ** Fetch helpers *)

(** [directFetch(url, ms, opts)]: the abort timer is cleared on either
    way out, and the outcome of [fetch] is passed on. *)
Definition directFetch (url : jsstring) (ms : N) (headers : Headers)
  : JS Response :=
  try_catch
    (fetch {| req_url := url; req_agent := None; req_timeout := ms;
              req_headers := headers |})
    (fun e => throw e).

(** [proxyFetch(url, proxyHostPort, ms, opts)].  A proxy URL that
    [HttpsProxyAgent] refuses is a rejection of the request. *)
Definition proxyFetch (url proxyHostPort : jsstring) (ms : N)
           (headers : Headers) : JS Response :=
  let proxyUrl := js "http://" ++ proxyHostPort in
  try_catch
    (fetch {| req_url := url; req_agent := Some proxyUrl; req_timeout := ms;
              req_headers := headers |})
    (fun e => throw e).

(** ** Proxy pool: collecting and testing candidates *)

Import Regex.

(** [/^\d{1,3}(\.\d{1,3}){3}:\d{2,5}$/] *)
Definition IP_PORT : regex :=
  Cat (Rep 1 3 (Class digit))
      (Cat (Rep 3 3 (Cat (Class (chr 46)) (Rep 1 3 (Class digit))))
           (Cat (Class (chr 58)) (Rep 2 5 (Class digit)))).

(** [set.add(t)] on a [Set] given by its members in insertion order. *)
Definition set_add (t : jsstring) (set : list jsstring) : list jsstring :=
  if existsb (jsstring_eqb t) set then set else set ++ [t].

(** [line.trim().split('#')[0].trim()] *)
Definition stripComment (line : jsstring) : jsstring :=
  JSString.trim (hd [] (JSString.split 35 (JSString.trim line))).

(** The [for] loop over the lines of one body. *)
Definition addLines (text : jsstring) (set : list jsstring) : list jsstring :=
  fold_left
    (fun set line =>
       let t := stripComment line in
       if test IP_PORT t then set_add t set else set)
    (JSString.splitLines text) set.

(** The callback that [fetchProxyCandidates] maps over [PROXY_SOURCES]. *)
Definition fetchSource (src : jsstring) (set : list jsstring)
  : JS (list jsstring) :=
  try_catch
    (res <- directFetch src 8000 [ (js "User-Agent", js "curl/7.88.1") ] ;;
     if negb (res_ok res) then ret set
     else text <- settle (res_text res) ;;
          ret (addLines text set))
    (fun _ => ret set).

(** [Promise.allSettled] over the sources, which share [set]; the sources
    are taken in the order of the array. *)
Fixpoint fetchSources (srcs : list jsstring) (set : list jsstring)
  : JS (list jsstring) :=
  match srcs with
  | [] => ret set
  | src :: rest => set' <- fetchSource src set ;; fetchSources rest set'
  end.

(** [fetchProxyCandidates()] *)
Definition fetchProxyCandidates : JS (list jsstring) :=
  fetchSources PROXY_SOURCES [].

Definition typeError : Exn :=
  {| exn_abort := false; exn_message := ErrText (js "TypeError") |}.

(** [testProxy(hostPort)] *)
Definition testProxy (hostPort : jsstring) : JS bool :=
  try_catch
    (res <- fetch {| req_url := js "http://httpbin.org/ip";
                     req_agent := Some (js "http://" ++ hostPort);
                     req_timeout := 6000; req_headers := [] |} ;;
     if negb (res_ok res) then ret false
     else j <- settle (res_json res) ;;
          match j with
          | JsonNull => throw typeError
          | JsonIp (Some _) => ret true
          | _ => ret false
          end)
    (fun _ => ret false).

(** ** Pool refresher *)

(** [arr.slice(a, b)] for [a <= b] *)
Definition slice (A : Type) (a b : nat) (arr : list A) : list A :=
  firstn (b - a) (skipn a arr).

Fixpoint insertRanked (A : Type) (x : nat * A) (l : list (nat * A))
  : list (nat * A) :=
  match l with
  | [] => [x]
  | y :: l' => if fst x <? fst y then x :: l else y :: insertRanked x l'
  end.

(** [arr.sort(() => Math.random() - 0.5)]: some rearrangement of [arr],
    here the one that orders the elements by the ranks the oracle gives
    to their places. *)
Definition sortRandom (A : Type) (arr : list A) : JS (list A) :=
  rank <- ask sort_rank ;;
  ret (map snd
         (fold_right (@insertRanked A) []
            (combine (map rank (seq 0 (length arr))) arr))).

Definition BATCH : nat := 15.

(** [results.filter(Boolean)] *)
Definition filterBoolean (results : list (option jsstring)) : list jsstring :=
  flat_map (fun r => match r with
                     | Some (c :: hp) => [c :: hp]
                     | _ => []
                     end) results.

(** The [for] loop of [refreshProxyPool]; [fuel] bounds the number of
    batches, and [length pool] is always enough. *)
Fixpoint testBatches (fuel : nat) (pool : list jsstring) (i : nat)
         (working : list jsstring) : JS (list jsstring) :=
  if (i <? length pool) && (length working <? 35) then
    match fuel with
    | 0 => ret working
    | S fuel' =>
        let batch := slice i (i + BATCH) pool in
        results <- awaitCall
          (promiseAll (fun hp => ok <- testProxy hp ;;
                                 ret (if ok : bool then Some hp else None))
                      batch) ;;
        testBatches fuel' pool (i + BATCH) (working ++ filterBoolean results)
    end
  else ret working.

(** The part of the [try] block before [state] is written: collect,
    sample and test.  Returns [pool] and [working]. *)
Definition refreshCollect : JS (list jsstring * list jsstring) :=
  candidates <- awaitCall fetchProxyCandidates ;;
  log (MsgGotCandidates (length candidates)) info ;;
  sorted <- sortRandom candidates ;;
  let pool := slice 0 80 sorted in
  working <- testBatches (length pool) pool 0 [] ;;
  ret (pool, working).

(** The rest of the [try] block: the new pool is put in place. *)
Definition refreshInstall (pool working : list jsstring) : JS unit :=
  modify (set_proxyTested (Nat.min (length pool) 80)) ;;
  modify (set_proxyWorking (length working)) ;;
  modify (set_proxyPool working) ;;
  ts <- now ;;
  modify (set_lastProxyRefresh (Some ts)) ;;
  log (MsgPoolReady (length working))
      (if 0 <? length working then ok else warn).

(** [refreshProxyPool()] past its guard, up to the [try] block. *)
Definition refreshEnter : JS unit :=
  modify (set_proxyRefreshing true) ;;
  log MsgFetchingCandidates info.

(** The [try] block of [refreshProxyPool]. *)
Definition refreshTry : JS unit :=
  pw <- refreshCollect ;; refreshInstall (fst pw) (snd pw).

(** [refreshProxyPool()] *)
Definition refreshProxyPool : JS unit :=
  s <- get ;;
  if proxyRefreshing s then ret tt
  else
    refreshEnter ;;
    try_catch refreshTry
              (fun e => log (MsgRefreshError (exn_message e)) err) ;;
    modify (set_proxyRefreshing false).

(** ** Proxy pool: rotation and removal *)

(** [nextProxy()]; [null] is [None]. *)
Definition nextProxy : JS (option jsstring) :=
  s <- get ;;
  match proxyPool s with
  | [] => ret None
  | p :: rest => modify (set_proxyPool (rest ++ [p])) ;; ret (Some p)
  end.

(** The removal of a dead proxy in [downloadFile]:
    [state.proxyPool = state.proxyPool.filter(p => p !== proxy);
     state.proxyWorking = state.proxyPool.length]. *)
Definition evict (proxy : jsstring) : JS unit :=
  modify (fun s =>
    set_proxyPool (filter (fun p => negb (jsstring_eqb p proxy)) (proxyPool s)) s) ;;
  modify (fun s => set_proxyWorking (length (proxyPool s)) s).

(** ** Project and versions *)

(** [fetch] as one of the promises handed to [Promise.all]: the request
    is made whatever becomes of the others. *)
Definition fetchSettled (url : jsstring) (ms : N) (headers : Headers)
  : JS (Result Response) :=
  try_catch (res <- directFetch url ms headers ;; ret (Ok res))
            (fun e => ret (Throw e)).

(** [all.filter(v => v.files?.length)] *)
Definition withFiles (all : list Version) : list Version :=
  filter (fun v => match files v with [] => false | _ :: _ => true end) all.

(** [loadVersions()] *)
Definition loadVersions : JS unit :=
  s <- get ;;
  if 0 <? length (versions s) then ret tt
  else
    log MsgLoadingProject info ;;
    let h := [ (js "User-Agent", js "AutoBot/1.0");
               (js "Accept", js "application/json") ] in
    p1 <- fetchSettled (API_BASE ++ js "/project/" ++ PROJECT_SLUG) 10000 h ;;
    p2 <- fetchSettled (API_BASE ++ js "/project/" ++ PROJECT_SLUG ++ js "/version")
                       10000 h ;;
    pr <- settle p1 ;;
    vr <- settle p2 ;;
    if negb (res_ok pr) then
      throw {| exn_abort := false; exn_message := ErrProjectApi (res_status pr) |}
    else
      project <- settle (res_json pr) ;;
      modify (set_projectData (Some project)) ;;
      all <- settle (res_json vr) ;;
      match all with
      | JsonVersions all =>
          modify (set_versions (withFiles all)) ;;
          match project with
          | JsonNull => throw typeError
          | JsonProject title =>
              s' <- get ;; log (MsgLoaded title (length (versions s'))) ok
          | _ =>
              s' <- get ;; log (MsgLoaded None (length (versions s'))) ok
          end
      | _ => throw typeError
      end.

(** ** Page view *)

(** The [while] loop of [registerView] over the reads of the body. *)
Fixpoint readPrefix (reads : list ReadResult) (b : N) : JS unit :=
  if (b <? 32768)%N then
    match reads with
    | [] => ret tt
    | ReadChunk len :: rest => readPrefix rest (b + len)%N
    | ReadThrows e :: _ => throw e
    end
  else ret tt.

(** [registerView()] *)
Definition registerView : JS bool :=
  try_catch
    (headers <- makeHeaders [] ;;
     res <- directFetch MODRINTH_URL 15000 headers ;;
     match res_body res with
     | Some reads => readPrefix reads 0%N
     | None => ret tt
     end ;;
     modify (fun s => set_views (S (views s)) s) ;;
     ts <- now ;;
     modify (set_lastView (Some ts)) ;;
     s <- get ;;
     log (MsgView (views s) (res_status res)) ok ;;
     ret true)
    (fun e => log (MsgViewFailed (reason e)) warn ;; ret false).

(** ** Download through a rotating proxy *)

(** [Math.round(n / 1024)] for a byte length [n] *)
Definition roundKB (n : N) : N := ((n + 512) / 1024)%N.

(** [(arr || [dflt])[0]] *)
Definition firstOr (dflt : jsstring) (arr : option (list jsstring))
  : option jsstring :=
  match arr with
  | Some a => hd_error a
  | None => Some dflt
  end.

(** [if (proxy)]: neither [null] nor the empty string. *)
Definition truthy (proxy : option jsstring) : option jsstring :=
  match proxy with
  | Some (c :: p) => Some (c :: p)
  | _ => None
  end.

(** [if (!res.ok) throw new Error(`HTTP ${res.status}`)] *)
Definition checkOk (res : Response) : JS unit :=
  if negb (res_ok res) then
    throw {| exn_abort := false; exn_message := ErrHttp (res_status res) |}
  else ret tt.

(** The attempt through [proxy]: [true] when the download is done, [false]
    when the proxy was removed and the direct attempt is to follow. *)
Definition downloadViaProxy (ver : Version) (fileUrl fname : jsstring)
           (loader gameVer : option jsstring) (dlHeaders : Headers)
           (proxy : jsstring) : JS bool :=
  try_catch
    (log (MsgViaProxy proxy) dl ;;
     res <- proxyFetch fileUrl proxy DL_TIMEOUT dlHeaders ;;
     checkOk res ;;
     byteLength <- settle (res_byteLength res) ;;
     if (byteLength <? 100)%N then
       throw {| exn_abort := false;
                exn_message := ErrTooSmallBytes byteLength |}
     else
       let sizeKB := roundKB byteLength in
       modify (fun s => set_downloads (S (downloads s)) s) ;;
       ts <- now ;;
       modify (set_lastDl (Some
         {| dl_filename := fname; dl_loader := loader; dl_gameVer := gameVer;
            dl_version := version_number ver; dl_sizeKB := sizeKB;
            dl_via := proxy; dl_ts := ts |})) ;;
       s <- get ;;
       log (MsgDownloadedVia (downloads s) sizeKB proxy) ok ;;
       ret true)
    (fun e =>
       evict proxy ;;
       log (MsgProxyDead proxy (reason e)) warn ;;
       ret false).

(** The fallback of [downloadFile]: the same file, without a proxy. *)
Definition downloadDirect (ver : Version) (fileUrl fname : jsstring)
           (loader gameVer : option jsstring) (dlHeaders : Headers)
  : JS bool :=
  try_catch
    (res <- directFetch fileUrl DL_TIMEOUT dlHeaders ;;
     checkOk res ;;
     byteLength <- settle (res_byteLength res) ;;
     if (byteLength <? 100)%N then
       throw {| exn_abort := false; exn_message := ErrTooSmall |}
     else
       let sizeKB := roundKB byteLength in
       modify (fun s => set_downloads (S (downloads s)) s) ;;
       ts <- now ;;
       modify (set_lastDl (Some
         {| dl_filename := fname; dl_loader := loader; dl_gameVer := gameVer;
            dl_version := version_number ver; dl_sizeKB := sizeKB;
            dl_via := js "direct"; dl_ts := ts |})) ;;
       s <- get ;;
       log (MsgDownloadedDirect (downloads s) sizeKB) ok ;;
       ret true)
    (fun e =>
       modify (fun s => set_dlFailed (S (dlFailed s)) s) ;;
       modify (set_lastError (Some (exn_message e))) ;;
       log (MsgDownloadFailed (reason e)) err ;;
       ret false).

(** [ver.files.find(f => f.primary) || ver.files[0]] *)
Definition pickFile (ver : Version) : option FileInfo :=
  match find primary (files ver) with
  | Some f => Some f
  | None => hd_error (files ver)
  end.

(** The two attempts of [downloadFile]: through the next proxy of the
    pool, when there is one, and otherwise or after its failure without a
    proxy. *)
Definition downloadAttempts (ver : Version) (fileUrl fname : jsstring)
           (loader gameVer : option jsstring) (dlHeaders : Headers)
  : JS bool :=
  proxy <- nextProxy ;;
  done <- match truthy proxy with
          | Some p =>
              downloadViaProxy ver fileUrl fname loader gameVer dlHeaders p
          | None => log MsgNoProxies warn ;; ret false
          end ;;
  if done : bool then ret true
  else downloadDirect ver fileUrl fname loader gameVer dlHeaders.

(** [downloadFile()] *)
Definition downloadFile : JS bool :=
  s <- get ;;
  match versions s with
  | [] => log MsgNoVersions warn ;; ret false
  | _ :: _ =>
      v <- randEl (versions s) ;;
      match v with
      | None => throw typeError
      | Some ver =>
          match pickFile ver with
          | None => throw typeError
          | Some file =>
              let fileUrl := url file in
              let fname := filename file in
              let loader := firstOr (js "unknown") (loaders ver) in
              let gameVer := firstOr (js "?") (game_versions ver) in
              log (MsgDownload fname loader gameVer) dl ;;
              ms <- jitter 1400 (1 # 2) ;;
              sleep ms ;;
              h <- makeHeaders
                     [ (js "Accept",
                        js "application/java-archive,application/octet-stream,*/*") ] ;;
              let dlHeaders :=
                spread h
                  [ (js "Referer",
                     js "https://modrinth.com/plugin/" ++ PROJECT_SLUG
                        ++ js "/version/" ++ version_number ver) ] in
              downloadAttempts ver fileUrl fname loader gameVer dlHeaders
          end
      end
  end.

(** ** Main loop *)

(** The [try] block of [runCycle]. *)
Definition cycleBody : JS unit :=
  s <- get ;;
  when (length (versions s) =? 0) (awaitCall loadVersions) ;;
  awaitCall registerView ;;
  r <- random ;;
  let readTime := (5000 + Unit01_to_Q r * 9000)%Q in
  log (MsgReading (readTime / 1000)%Q) info ;;
  sleep readTime ;;
  awaitCall downloadFile ;;
  ret tt.

(** The [catch] block of [runCycle]. *)
Definition cycleError (e : Exn) : JS unit :=
  log (MsgCycleError (exn_message e)) err ;;
  modify (fun s => set_errors (S (errors s)) s) ;;
  modify (set_lastError (Some (exn_message e))).

(** [runCycle()] up to its [try] block. *)
Definition cycleStart : JS unit :=
  modify (fun s => set_cycles (S (cycles s)) s) ;;
  s <- get ;;
  log (MsgCycle (cycles s)) info ;;
  when ((cycles s =? 1) || (cycles s mod PROXY_REFRESH_EVERY =? 0))
       (spawn refreshProxyPool ;;
        when (cycles s =? 1) (sleep 3000)).

(** [runCycle()] after its [try] block. *)
Definition cycleNext : JS unit :=
  next <- jitter (inject_Z (Z.of_N INTERVAL_MS)) (1 # 4) ;;
  log (MsgNextIn (next / 1000)%Q) info ;;
  setTimeout CbRunCycle next.

(** [runCycle()] *)
Definition runCycle : JS unit :=
  cycleStart ;;
  try_catch cycleBody cycleError ;;
  cycleNext.




(** ** The proxy pool as its operations *)

Inductive PoolOp : Type :=
| Checkout                   (** [nextProxy()] *)
| Evict (proxy : jsstring).  (** the removal of [proxy] *)

(** A run of pool operations; the values that the checkouts return. *)
Fixpoint poolOps (ops : list PoolOp) : JS (list (option jsstring)) :=
  match ops with
  | [] => ret []
  | Checkout :: ops' =>
      p <- nextProxy ;; ps <- poolOps ops' ;; ret (p :: ps)
  | Evict x :: ops' => evict x ;; poolOps ops'
  end.

(** [n] calls of [nextProxy()], and what they return. *)
Definition checkouts (n : nat) : JS (list (option jsstring)) :=
  poolOps (repeat Checkout n).

(* ================================================================== *)
(** * The earlier, direct-only server *)
(* ================================================================== *)

Module Legacy.

Definition INTERVAL_MS : N := 10000.
Definition DL_TIMEOUT : N := 30000.

Definition USER_AGENTS : list jsstring :=
  [ js "Mozilla/5.0 (Windows NT 10.0; Win64; x64) AppleWebKit/537.36 (KHTML, like Gecko) Chrome/122.0.0.0 Safari/537.36";
    js "Mozilla/5.0 (Macintosh; Intel Mac OS X 10_15_7) AppleWebKit/537.36 (KHTML, like Gecko) Chrome/121.0.0.0 Safari/537.36";
    js "Mozilla/5.0 (Windows NT 10.0; Win64; x64; rv:124.0) Gecko/20100101 Firefox/124.0";
    js "Mozilla/5.0 (X11; Linux x86_64) AppleWebKit/537.36 (KHTML, like Gecko) Chrome/120.0.0.0 Safari/537.36";
    js "Mozilla/5.0 (Macintosh; Intel Mac OS X 14_4) AppleWebKit/605.1.15 (KHTML, like Gecko) Version/17.4 Safari/605.1.15";
    js "Mozilla/5.0 (iPhone; CPU iPhone OS 17_4 like Mac OS X) AppleWebKit/605.1.15 Version/17.4 Mobile/15E148 Safari/604.1";
    js "Mozilla/5.0 (Windows NT 10.0; Win64; x64) AppleWebKit/537.36 (KHTML, like Gecko) Chrome/122.0.0.0 Safari/537.36 Edg/122.0.0.0" ].

Definition REFERERS : list jsstring :=
  [ js "https://www.google.com/";
    js "https://www.google.nl/";
    js "https://modrinth.com/";
    js "https://modrinth.com/plugins";
    js "https://discord.com/";
    js "https://www.reddit.com/";
    [] ].

Inductive LogMsg : Type :=
| MsgFetchingVersions                (** ['Fetching version list from Modrinth API...'] *)
| MsgLoaded (title : option jsstring) (n : nat)
                                     (** [`Loaded "${title}" - ${n} versions`] *)
| MsgLoadFailed (m : ErrMsg)         (** [`API load failed: ${e.message}`] *)
| MsgView (n : nat) (status : N) (ua : jsstring)
                                     (** [`View #${n} registered (${status}) - UA: ${ua.slice(0,40)}...`] *)
| MsgViewFailed (m : ErrMsg)         (** [`View failed: ${reason}`] *)
| MsgNoVersions                      (** ['No versions to download'] *)
| MsgDownloading (fname : jsstring) (loader gameVer : option jsstring)
                 (version : jsstring)
                                     (** [`Downloading: ${fname} [${loader} ${gameVer}] v${version}`] *)
| MsgDownloaded (n : nat) (fname : jsstring) (sizeKB : N)
                                     (** [`Download #${n} complete: ${fname} - ${sizeKB}KB (discarded)`] *)
| MsgDownloadFailed (m : ErrMsg)     (** [`Download failed: ${reason}`] *)
| MsgStarting                        (** ['--- Starting new cycle ---'] *)
| MsgReadTime (seconds : Q)          (** [`Simulating ${(readTime/1000).toFixed(1)}s read time...`] *)
| MsgCycleError (m : ErrMsg)         (** [`Cycle error: ${e.message}`] *)
| MsgNextCycle (seconds : Q).        (** [`Next cycle in ${(nextIn/1000).toFixed(1)}s`] *)

Record LogEntry : Type :=
  { entry_ts : jsstring; entry_msg : LogMsg; entry_type : LogType }.

Record DownloadRecord : Type :=
  { dl_filename : jsstring;
    dl_loader : option jsstring;
    dl_gameVer : option jsstring;
    dl_version : jsstring;
    dl_sizeKB : N;
    dl_ts : jsstring }.

(** The global [state] object; its field [log] is [state_log] here. *)
Record State : Type :=
  { views : nat; downloads : nat; errors : nat;
    startTime : nat;
    running : bool;
    lastView : option jsstring;
    lastDl : option DownloadRecord;
    lastError : option ErrMsg;
    state_log : list LogEntry;
    versions : list Version;
    projectData : option Json }.

Definition initialState (t0 : nat) : State :=
  {| views := 0; downloads := 0; errors := 0; startTime := t0;
     running := true; lastView := None; lastDl := None; lastError := None;
     state_log := []; versions := []; projectData := None |}.

Definition set_views (v : nat) (s : State) : State :=
  {| views := v; downloads := downloads s; errors := errors s;
     startTime := startTime s; running := running s;
     lastView := lastView s; lastDl := lastDl s; lastError := lastError s;
     state_log := state_log s; versions := versions s;
     projectData := projectData s |}.

Definition set_downloads (v : nat) (s : State) : State :=
  {| views := views s; downloads := v; errors := errors s;
     startTime := startTime s; running := running s;
     lastView := lastView s; lastDl := lastDl s; lastError := lastError s;
     state_log := state_log s; versions := versions s;
     projectData := projectData s |}.

Definition set_errors (v : nat) (s : State) : State :=
  {| views := views s; downloads := downloads s; errors := v;
     startTime := startTime s; running := running s;
     lastView := lastView s; lastDl := lastDl s; lastError := lastError s;
     state_log := state_log s; versions := versions s;
     projectData := projectData s |}.

Definition set_lastView (v : option jsstring) (s : State) : State :=
  {| views := views s; downloads := downloads s; errors := errors s;
     startTime := startTime s; running := running s;
     lastView := v; lastDl := lastDl s; lastError := lastError s;
     state_log := state_log s; versions := versions s;
     projectData := projectData s |}.

Definition set_lastDl (v : option DownloadRecord) (s : State) : State :=
  {| views := views s; downloads := downloads s; errors := errors s;
     startTime := startTime s; running := running s;
     lastView := lastView s; lastDl := v; lastError := lastError s;
     state_log := state_log s; versions := versions s;
     projectData := projectData s |}.

Definition set_lastError (v : option ErrMsg) (s : State) : State :=
  {| views := views s; downloads := downloads s; errors := errors s;
     startTime := startTime s; running := running s;
     lastView := lastView s; lastDl := lastDl s; lastError := v;
     state_log := state_log s; versions := versions s;
     projectData := projectData s |}.

Definition set_log (v : list LogEntry) (s : State) : State :=
  {| views := views s; downloads := downloads s; errors := errors s;
     startTime := startTime s; running := running s;
     lastView := lastView s; lastDl := lastDl s; lastError := lastError s;
     state_log := v; versions := versions s;
     projectData := projectData s |}.

Definition set_versions (v : list Version) (s : State) : State :=
  {| views := views s; downloads := downloads s; errors := errors s;
     startTime := startTime s; running := running s;
     lastView := lastView s; lastDl := lastDl s; lastError := lastError s;
     state_log := state_log s; versions := v;
     projectData := projectData s |}.

Definition set_projectData (v : option Json) (s : State) : State :=
  {| views := views s; downloads := downloads s; errors := errors s;
     startTime := startTime s; running := running s;
     lastView := lastView s; lastDl := lastDl s; lastError := lastError s;
     state_log := state_log s; versions := versions s;
     projectData := v |}.

Definition JS (A : Type) : Type := M State A.

(** [log(msg, type)]; [state.log] keeps at most 100 entries. *)
Definition log (msg : LogMsg) (type : LogType) : JS unit :=
  ts <- now ;;
  modify (fun s =>
    set_log (unshiftCapped 100
               {| entry_ts := ts; entry_msg := msg; entry_type := type |}
               (state_log s)) s).

(** [jitter(ms)]: [ms + (Math.random() - 0.5) * ms * 0.3] *)
Definition jitter (ms : Q) : JS Q :=
  r <- random ;; ret (ms + (Unit01_to_Q r - (1 # 2)) * ms * (3 # 10))%Q.

(** [makeHeaders(extra)] *)
Definition makeHeaders (extra : Headers) : JS Headers :=
  ua <- randEl USER_AGENTS ;;
  ref <- randEl REFERERS ;;
  ret (spread
         [ (js "User-Agent", orUndefined ua);
           (js "Accept", js "text/html,application/xhtml+xml,application/xml;q=0.9,image/webp,*/*;q=0.8");
           (js "Accept-Language", js "en-US,en;q=0.9,nl;q=0.8");
           (js "Accept-Encoding", js "gzip, deflate, br");
           (js "Cache-Control", js "no-cache");
           (js "Pragma", js "no-cache");
           (js "Referer", orUndefined ref);
           (js "DNT", js "1") ]
         extra).

(** [fetchWithTimeout(url, ms, opts)] *)
Definition fetchWithTimeout (url : jsstring) (ms : N) (headers : Headers)
  : JS Response :=
  try_catch
    (fetch {| req_url := url; req_agent := None; req_timeout := ms;
              req_headers := headers |})
    (fun e => throw e).

Definition fetchSettled (url : jsstring) (ms : N) (headers : Headers)
  : JS (Result Response) :=
  try_catch (res <- fetchWithTimeout url ms headers ;; ret (Ok res))
            (fun e => ret (Throw e)).

(** [loadVersions()] *)
Definition loadVersions : JS unit :=
  s <- get ;;
  if 0 <? length (versions s) then ret tt
  else
    log MsgFetchingVersions info ;;
    try_catch
      (let h := [ (js "User-Agent", js "AutoBot/1.0");
                  (js "Accept", js "application/json") ] in
       p1 <- fetchSettled (API_BASE ++ js "/project/" ++ PROJECT_SLUG) 10000 h ;;
       p2 <- fetchSettled
               (API_BASE ++ js "/project/" ++ PROJECT_SLUG ++ js "/version")
               10000 h ;;
       projRes <- settle p1 ;;
       versRes <- settle p2 ;;
       if negb (res_ok projRes) then
         throw {| exn_abort := false;
                  exn_message := ErrProjectApi (res_status projRes) |}
       else if negb (res_ok versRes) then
         throw {| exn_abort := false;
                  exn_message := ErrVersionsApi (res_status versRes) |}
       else
         project <- settle (res_json projRes) ;;
         modify (set_projectData (Some project)) ;;
         all <- settle (res_json versRes) ;;
         match all with
         | JsonVersions all =>
             modify (set_versions (withFiles all)) ;;
             match project with
             | JsonNull => throw typeError
             | JsonProject title =>
                 s' <- get ;; log (MsgLoaded title (length (versions s'))) ok
             | _ =>
                 s' <- get ;; log (MsgLoaded None (length (versions s'))) ok
             end
         | _ => throw typeError
         end)
      (fun e => log (MsgLoadFailed (exn_message e)) warn ;; throw e).

(** The [while] loop of [registerView] over the reads of the body. *)
Fixpoint readPrefix (reads : list ReadResult) (bytes : N) : JS unit :=
  if (bytes <? 32768)%N then
    match reads with
    | [] => ret tt
    | ReadChunk len :: rest => readPrefix rest (bytes + len)%N
    | ReadThrows e :: _ => throw e
    end
  else ret tt.

(** [registerView()] *)
Definition registerView : JS bool :=
  ua <- randEl USER_AGENTS ;;
  ref <- randEl REFERERS ;;
  try_catch
    (headers <- makeHeaders [] ;;
     res <- fetchWithTimeout MODRINTH_URL 15000 headers ;;
     match res_body res with
     | Some reads => readPrefix reads 0%N
     | None => ret tt
     end ;;
     modify (fun s => set_views (S (views s)) s) ;;
     ts <- now ;;
     modify (set_lastView (Some ts)) ;;
     s <- get ;;
     match ua with
     | Some ua => log (MsgView (views s) (res_status res) (firstn 40 ua)) ok ;;
                  ret true
     | None => throw typeError
     end)
    (fun e => log (MsgViewFailed (reason e)) warn ;; ret false).

(** [downloadFile()] *)
Definition downloadFile : JS bool :=
  s <- get ;;
  match versions s with
  | [] => log MsgNoVersions warn ;; ret false
  | _ :: _ =>
      v <- randEl (versions s) ;;
      match v with
      | None => throw typeError
      | Some ver =>
          match pickFile ver with
          | None => throw typeError
          | Some file =>
              let fileUrl := url file in
              let fname := filename file in
              let loader := firstOr (js "unknown") (loaders ver) in
              let gameVer := firstOr (js "?") (game_versions ver) in
              log (MsgDownloading fname loader gameVer (version_number ver)) dl ;;
              ms <- jitter 1200 ;;
              sleep ms ;;
              try_catch
                (h <- makeHeaders
                        [ (js "Accept",
                           js "application/java-archive,application/zip,application/octet-stream,*/*") ] ;;
                 res <- fetchWithTimeout fileUrl DL_TIMEOUT
                          (spread h
                             [ (js "Referer",
                                js "https://modrinth.com/plugin/" ++ PROJECT_SLUG
                                   ++ js "/version/" ++ version_number ver) ]) ;;
                 (if negb (res_ok res) then
                    throw {| exn_abort := false;
                             exn_message := ErrHttp (res_status res) |}
                  else ret tt) ;;
                 byteLength <- settle (res_byteLength res) ;;
                 if (byteLength <? 100)%N then
                   throw {| exn_abort := false;
                            exn_message := ErrSuspicious byteLength |}
                 else
                   let sizeKB := roundKB byteLength in
                   modify (fun s => set_downloads (S (downloads s)) s) ;;
                   ts <- now ;;
                   modify (set_lastDl (Some
                     {| dl_filename := fname; dl_loader := loader;
                        dl_gameVer := gameVer;
                        dl_version := version_number ver;
                        dl_sizeKB := sizeKB; dl_ts := ts |})) ;;
                   s' <- get ;;
                   log (MsgDownloaded (downloads s') fname sizeKB) ok ;;
                   ret true)
                (fun e =>
                   log (MsgDownloadFailed (reason e)) err ;;
                   modify (fun s => set_errors (S (errors s)) s) ;;
                   modify (set_lastError (Some (reason e))) ;;
                   ret false)
          end
      end
  end.

(** [humanReadDelay()] *)
Definition humanReadDelay : JS Q :=
  r <- random ;;
  let base := (8000 + (Unit01_to_Q r - (1 # 2)) * 8000)%Q in
  ret (Qmax 4000 (Qmin 15000 base)).

(** The [try] block of [runCycle]. *)
Definition cycleBody : JS unit :=
  s <- get ;;
  when (length (versions s) =? 0) (awaitCall loadVersions) ;;
  awaitCall registerView ;;
  readTime <- humanReadDelay ;;
  log (MsgReadTime (readTime / 1000)%Q) info ;;
  sleep readTime ;;
  awaitCall downloadFile ;;
  ret tt.

(** The [catch] block of [runCycle]. *)
Definition cycleError (e : Exn) : JS unit :=
  log (MsgCycleError (exn_message e)) err ;;
  modify (fun s => set_errors (S (errors s)) s) ;;
  modify (set_lastError (Some (exn_message e))).

(** [runCycle()] after its [try] block. *)
Definition cycleNext : JS unit :=
  nextIn <- jitter (inject_Z (Z.of_N INTERVAL_MS)) ;;
  log (MsgNextCycle (nextIn / 1000)%Q) info ;;
  setTimeout CbRunCycle nextIn.

(** [runCycle()] *)
Definition runCycle : JS unit :=
  s <- get ;;
  if negb (running s) then ret tt
  else
    log MsgStarting info ;;
    try_catch cycleBody cycleError ;;
    cycleNext.

End Legacy.

(* ================================================================== *)
(** * What the specification says, in its own words *)
(* ================================================================== *)

Module Spec.

(** "a target working-pool size (e.g., 35)" *)
Definition TARGET_POOL_SIZE : nat := 35.

(** The decimal value of a run of digits. *)
Definition decimal (s : jsstring) : N :=
  fold_left (fun acc c => (acc * 10 + (c - 48))%N) s 0%N.

Definition allDigits (lo hi : nat) (s : jsstring) : bool :=
  (lo <=? length s) && (length s <=? hi) && forallb Regex.digit s.

(** "0-255 octet" *)
Definition octet (s : jsstring) : bool :=
  allDigits 1 3 s && (decimal s <=? 255)%N.

(** "the pattern IPv4:port (four dot-separated 0-255 octets, colon,
    1-5 digit port)" *)
Definition ipv4_port (t : jsstring) : bool :=
  match JSString.split 58 t with
  | [host; port] =>
      match JSString.split 46 host with
      | [a; b; c; d] =>
          octet a && octet b && octet c && octet d && allDigits 1 5 port
      | _ => false
      end
  | _ => false
  end.

End Spec.

(* ================================================================== *)
(** * Notions used to state the properties *)
(* ================================================================== *)

(** Between [lo] and [hi] code units, all of them decimal digits. *)
Definition digitRun (lo hi : nat) (s : jsstring) : Prop :=
  lo <= length s <= hi /\ forallb Regex.digit s = true.

(** What [IP_PORT] accepts: four runs of one to three digits separated by
    dots, a colon, and a run of two to five digits. *)
Definition IpPortSyntax (t : jsstring) : Prop :=
  exists a b c d port,
    t = a ++ [46%N] ++ b ++ [46%N] ++ c ++ [46%N] ++ d ++ [58%N] ++ port
    /\ digitRun 1 3 a /\ digitRun 1 3 b /\ digitRun 1 3 c /\ digitRun 1 3 d
    /\ digitRun 2 5 port.

(** The request that [fetchProxyCandidates] makes for one source. *)
Definition sourceRequest (src : jsstring) : Request :=
  {| req_url := src; req_agent := None; req_timeout := 8000;
     req_headers := [ (js "User-Agent", js "curl/7.88.1") ] |}.

(** The body of a source, when the source was fetched: the request
    resolved, to a successful status, and its text could be read. *)
Definition sourceText (r : Result Response) : option jsstring :=
  match r with
  | Ok res => if res_ok res then
                match res_text res with
                | Ok text => Some text
                | Throw _ => None
                end
              else None
  | Throw _ => None
  end.

(** The bodies of the sources [srcs] that were fetched, the first of the
    requests being the [n]-th question to the outside. *)
Fixpoint fetchedTexts (env : Env) (n : nat) (srcs : list jsstring)
  : list jsstring :=
  match srcs with
  | [] => []
  | src :: rest =>
      match sourceText (net env n (sourceRequest src)) with
      | Some text => [text]
      | None => []
      end ++ fetchedTexts env (S n) rest
  end.

(** The state but for its log. *)
Definition offLog (w : World State) : State := set_log [] (state w).



(** The requests among the events. *)
Definition fetches (tr : list Event) : list Request :=
  flat_map (fun ev => match ev with EvFetch req => [req] | _ => [] end) tr.

(** The request of [downloadFile] for a file, through [proxy] or direct. *)
Definition downloadRequest (fileUrl : jsstring) (proxy : option jsstring)
           (dlHeaders : Headers) : Request :=
  {| req_url := fileUrl;
     req_agent := match proxy with
                  | Some p => Some (js "http://" ++ p)
                  | None => None
                  end;
     req_timeout := DL_TIMEOUT;
     req_headers := dlHeaders |}.

(** The requests that one download may make: none, one, or one through a
    proxy followed by one for the same file without a proxy. *)
Definition ProxyThenDirect (l : list Request) : Prop :=
  match l with
  | [] => True
  | [_] => True
  | [q; d] => req_agent q <> None /\ req_agent d = None
              /\ req_url d = req_url q /\ req_headers d = req_headers q
  | _ => False
  end.

(** A computation leaves the observation [g] of the world as it was. *)
Definition Keeps (St X A : Type) (g : World St -> X) (m : M St A) : Prop :=
  forall env w, g (snd (m env w)) = g w.

(** An observation that looks at neither the question count nor the
    events. *)
Definition Insensitive (St X : Type) (g : World St -> X) : Prop :=
  forall s n tr tm n' tr',
    g {| state := s; tick := n; trace := tr; timers := tm |}
    = g {| state := s; tick := n'; trace := tr'; timers := tm |}.

(** An observation that looks at the state only, and not at its log. *)
Definition OffLog (X : Type) (g : World State -> X) : Prop :=
  Insensitive g /\
  forall s n tr tm entries,
    g {| state := set_log entries s; tick := n; trace := tr; timers := tm |}
    = g {| state := s; tick := n; trace := tr; timers := tm |}.

(** ** Concrete scenarios *)

Module Scenario.

Definition clock : nat -> jsstring := fun _ => js "2024-01-01T00:00:00.000Z".
Definition dice : nat -> Unit01 := fun _ => {| num := 0; gap := 0 |}.

(** The world at start-up. *)
Definition w0 : World State :=
  {| state := initialState 0; tick := 0; trace := []; timers := [] |}.

(** One hundred candidates, [a.b.1.1:80] for decimal digits [a] and [b],
    one per line. *)
Definition decimalDigits : list N := [48; 49; 50; 51; 52; 53; 54; 55; 56; 57]%N.
Definition hundredLines : jsstring :=
  flat_map (fun a =>
    flat_map (fun b => [a] ++ js "." ++ [b] ++ js ".1.1:80" ++ [10%N])
             decimalDigits) decimalDigits.

(** Every source lists the hundred candidates and every probe succeeds. *)
Definition allGood : Response :=
  {| res_ok := true; res_status := 200;
     res_text := Ok hundredLines;
     res_json := Ok (JsonIp (Some (js "203.0.113.7")));
     res_byteLength := Ok 4096%N;
     res_body := None |}.

Definition envAllGood : Env :=
  {| date_now := clock; math_random := dice;
     sort_rank := fun _ i => i;
     net := fun _ _ => Ok allGood;
     fault := fun _ => None |}.

(** As [envAllGood], but the probes through the candidates
    [3.4.1.1:80] to [4.4.1.1:80] fail: the third batch of fifteen has four
    working members. *)
Definition envPicky : Env :=
  {| date_now := clock; math_random := dice;
     sort_rank := fun _ i => i;
     net := fun _ req =>
              match req_agent req with
              | Some u =>
                  let a := nth 7 u 0%N in
                  let b := nth 9 u 0%N in
                  if ((a =? 51) && (52 <=? b) || (a =? 52) && (b <=? 52))%N
                  then Throw {| exn_abort := true;
                                exn_message := ErrText (js "aborted") |}
                  else Ok allGood
              | None => Ok allGood
              end;
     fault := fun _ => None |}.

(** As [envAllGood], but every awaited call meets an unexpected error. *)
Definition boom : Exn :=
  {| exn_abort := false; exn_message := ErrText (js "out of memory") |}.

Definition envFaulty : Env :=
  {| date_now := clock; math_random := dice;
     sort_rank := fun _ i => i;
     net := fun _ _ => Ok allGood;
     fault := fun _ => Some boom |}.

(** A world whose pool holds two proxies. *)
Definition twoProxies : list jsstring := [ js "1.2.3.4:8080"; js "5.6.7.8:3128" ].
Definition wTwo : World State :=
  {| state := set_proxyWorking 2 (set_proxyPool twoProxies (initialState 0));
     tick := 0; trace := []; timers := [] |}.

(** The same world once a refresh has passed its guard and is about to
    collect its candidates. *)
Definition wRefreshing : World State := snd (refreshEnter envAllGood wTwo).

(** The first source lists entries that the specification and the
    pattern of the code judge differently. *)
Definition oddLines : jsstring :=
  js "999.1.2.3:80" ++ [10%N] ++ js "1.2.3.4:8" ++ [10%N] ++ js "1.2.3.4"
     ++ [10%N] ++ js "1.2.3.4:" ++ [10%N] ++ js " 1.2.3.4:8080 # fast"
     ++ [13%N; 10%N] ++ js "1.2.3.4:8080" ++ [10%N].

Definition envOdd : Env :=
  {| date_now := clock; math_random := dice;
     sort_rank := fun _ i => i;
     net := fun _ _ =>
              Ok {| res_ok := true; res_status := 200;
                    res_text := Ok oddLines;
                    res_json := Ok JsonNull;
                    res_byteLength := Ok 0%N; res_body := None |};
     fault := fun _ => None |}.

(** The download scenario of the specification: one file
    [mod-1.0.jar], one proxy [1.2.3.4:8080], and a body of 50 bytes
    whichever way the file is asked for. *)
Definition modJar : Version :=
  {| files := [ {| url := js "https://cdn.modrinth.com/data/mod-1.0.jar";
                   filename := js "mod-1.0.jar"; primary := true |} ];
     loaders := Some [ js "paper" ];
     game_versions := Some [ js "1.20.4" ];
     version_number := js "1.0" |}.

Definition wDownload : World State :=
  {| state := set_versions [modJar]
                (set_proxyWorking 1
                   (set_proxyPool [ js "1.2.3.4:8080" ] (initialState 0)));
     tick := 0; trace := []; timers := [] |}.

Definition fiftyBytes : Response :=
  {| res_ok := true; res_status := 200;
     res_text := Ok []; res_json := Ok JsonNull;
     res_byteLength := Ok 50%N; res_body := None |}.

Definition envFifty : Env :=
  {| date_now := clock; math_random := dice;
     sort_rank := fun _ i => i;
     net := fun _ _ => Ok fiftyBytes;
     fault := fun _ => None |}.




End Scenario.

(* ================================================================== *)
(** * Properties *)
(* ================================================================== *)

(** ** Strings *)

Lemma jsstring_eqb_eq a b : jsstring_eqb a b = true <-> a = b.
Proof.
  unfold jsstring_eqb.
  destruct (jsstring_eq_dec a b); split; intros; congruence.
Qed.

Lemma jsstring_eqb_neq a b : jsstring_eqb a b = false <-> a <> b.
Proof.
  unfold jsstring_eqb.
  destruct (jsstring_eq_dec a b); split; intros; congruence.
Qed.

Lemma jsstring_eqb_refl a : jsstring_eqb a a = true.
Proof. now apply jsstring_eqb_eq. Qed.

(** ** The matcher computes the language of a pattern *)

Module RegexFacts.
Import Regex.

Section Repeat.
Variable step : jsstring -> list jsstring.
Variable L : jsstring -> Prop.
Hypothesis step_spec :
  forall s u, In u (step s) <-> exists pre, s = pre ++ u /\ L pre.

Lemma repeat_match_spec hi : forall lo s u,
  In u (repeat_match step lo hi s) <->
  exists n pre, lo <= n <= hi /\ s = pre ++ u /\ pow L n pre.
Proof.
  induction hi as [|hi IH]; intros lo s u; simpl.
  - rewrite app_nil_r. split.
    + destruct (Nat.eqb_spec lo 0) as [->|Hlo]; simpl; [|tauto].
      intros [<-|[]]. exists 0, []. repeat split; auto.
    + intros (n & pre & Hn & -> & Hp).
      assert (n = 0) by lia; subst n. simpl in Hp; subst pre.
      assert (lo = 0) by lia; subst lo. simpl. auto.
  - rewrite in_app_iff, in_flat_map. split.
    + intros [H | (v & Hv & Hu)].
      * destruct (Nat.eqb_spec lo 0) as [->|Hlo]; simpl in H; [|tauto].
        destruct H as [<-|[]]. exists 0, []. repeat split; auto; lia.
      * apply step_spec in Hv. destruct Hv as (p1 & -> & Hp1).
        apply IH in Hu. destruct Hu as (n & p2 & Hn & -> & Hp2).
        exists (S n), (p1 ++ p2). split; [lia|]. split.
        -- now rewrite app_assoc.
        -- simpl. exists p1, p2. auto.
    + intros (n & pre & Hn & -> & Hp). destruct n as [|n].
      * left. simpl in Hp; subst pre.
        assert (lo = 0) by lia; subst lo. simpl. auto.
      * right. simpl in Hp. destruct Hp as (p1 & p2 & -> & Hp1 & Hp2).
        exists (p2 ++ u). split.
        -- apply step_spec. exists p1. split; [now rewrite app_assoc|auto].
        -- apply IH. exists n, p2. split; [lia|]. auto.
Qed.
End Repeat.

Lemma rmatch_spec r : forall s u,
  In u (rmatch r s) <-> exists pre, s = pre ++ u /\ lang r pre.
Proof.
  induction r as [|p|r1 IH1 r2 IH2|lo hi r IH]; intros s u; simpl.
  - split.
    + intros [<-|[]]. now exists [].
    + intros (pre & -> & ->). now left.
  - split.
    + destruct s as [|c s']; [intros []|].
      destruct (p c) eqn:Hc; [|intros []].
      intros [<-|[]]. exists [c]. split; [reflexivity|]. now exists c.
    + intros (pre & -> & c & -> & Hc). simpl. rewrite Hc. now left.
  - rewrite in_flat_map. split.
    + intros (v & Hv & Hu). apply IH1 in Hv. apply IH2 in Hu.
      destruct Hv as (p1 & -> & H1). destruct Hu as (p2 & -> & H2).
      exists (p1 ++ p2). split; [now rewrite app_assoc|].
      exists p1, p2. auto.
    + intros (pre & -> & p1 & p2 & -> & H1 & H2).
      exists (p2 ++ u). split.
      * apply IH1. exists p1. split; [now rewrite app_assoc|auto].
      * apply IH2. now exists p2.
  - rewrite (repeat_match_spec (rmatch r) (lang r) IH). split.
    + intros (n & pre & Hn & -> & Hp). exists pre. split; [reflexivity|].
      now exists n.
    + intros (pre & -> & n & Hn & Hp). now exists n, pre.
Qed.

(** [test] decides membership in the language. *)
Lemma test_spec r s : test r s = true <-> lang r s.
Proof.
  unfold test. rewrite existsb_exists. split.
  - intros (rest & Hin & Hnil). destruct rest; [|discriminate].
    apply rmatch_spec in Hin. destruct Hin as (pre & -> & H).
    now rewrite app_nil_r.
  - intros H. exists []. split; [|reflexivity].
    apply rmatch_spec. exists s. split; [now rewrite app_nil_r|auto].
Qed.

Lemma pow_class p n : forall s,
  pow (lang (Class p)) n s <-> length s = n /\ forallb p s = true.
Proof.
  induction n as [|n IH]; intros s; simpl.
  - split.
    + intros ->. auto.
    + intros [H _]. now destruct s.
  - split.
    + intros (a & b & -> & (c & -> & Hc) & Hb). apply IH in Hb.
      destruct Hb as [<- Hb]. simpl. rewrite Hc, Hb. auto.
    + intros [Hlen Hall]. destruct s as [|c s']; [discriminate|].
      simpl in Hall. apply andb_true_iff in Hall. destruct Hall as [Hc Hs].
      exists [c], s'. split; [reflexivity|]. split.
      * now exists c.
      * apply IH. split; [simpl in Hlen; lia|auto].
Qed.

Lemma lang_rep_class lo hi p s :
  lang (Rep lo hi (Class p)) s <->
  lo <= length s <= hi /\ forallb p s = true.
Proof.
  simpl. split.
  - intros (n & Hn & Hp). apply pow_class in Hp. destruct Hp as [<- Hp]. auto.
  - intros [Hn Hp]. exists (length s). split; [auto|].
    apply pow_class. auto.
Qed.

Lemma lang_chr k s : lang (Class (chr k)) s <-> s = [k].
Proof.
  simpl. unfold chr. split.
  - intros (c & -> & Hc). apply N.eqb_eq in Hc. now subst.
  - intros ->. exists k. split; [reflexivity|apply N.eqb_refl].
Qed.

End RegexFacts.

(** Concatenations, flattened to the right. *)
Ltac norm_app :=
  repeat (simpl; rewrite <- ?app_assoc); rewrite ?app_nil_r;
  repeat (simpl; rewrite <- ?app_assoc).

(** The pattern of the collector accepts exactly the strings of
    [IpPortSyntax]. *)
Lemma IP_PORT_spec t : Regex.test IP_PORT t = true <-> IpPortSyntax t.
Proof.
  rewrite RegexFacts.test_spec. unfold IP_PORT, IpPortSyntax, digitRun.
  split.
  - intros (a & r1 & -> & Ha & (x & r2 & -> & Hx & (k & r3 & -> & Hk & Hport))).
    apply RegexFacts.lang_rep_class in Ha, Hport.
    apply RegexFacts.lang_chr in Hk. subst k.
    destruct Hx as (n & Hn & Hx). assert (n = 3) by lia. subst n.
    simpl in Hx.
    destruct Hx as (x1 & y1 & -> & (d1 & b & -> & Hd1 & Hb)
                    & x2 & y2 & -> & (d2 & c & -> & Hd2 & Hc)
                    & x3 & y3 & -> & (d3 & d & -> & Hd3 & Hd) & ->).
    apply RegexFacts.lang_chr in Hd1, Hd2, Hd3. subst d1 d2 d3.
    apply (RegexFacts.lang_rep_class 1 3 Regex.digit) in Hb, Hc, Hd.
    exists a, b, c, d, r3. repeat split; try tauto.
    norm_app. reflexivity.
  - intros (a & b & c & d & port & -> & Ha & Hb & Hc & Hd & Hport).
    exists a, ([46%N] ++ b ++ [46%N] ++ c ++ [46%N] ++ d ++ [58%N] ++ port).
    split; [reflexivity|]. split; [now apply RegexFacts.lang_rep_class|].
    exists ([46%N] ++ b ++ [46%N] ++ c ++ [46%N] ++ d), ([58%N] ++ port).
    split; [now norm_app|]. split.
    + exists 3. split; [lia|]. simpl.
      exists (46%N :: b), ((46%N :: c) ++ (46%N :: d)). split.
      { now norm_app. }
      split.
      { exists [46%N], b. split; [reflexivity|]. split.
        - now apply RegexFacts.lang_chr.
        - now apply (RegexFacts.lang_rep_class 1 3 Regex.digit). }
      exists (46%N :: c), (46%N :: d). split; [reflexivity|]. split.
      { exists [46%N], c. split; [reflexivity|]. split.
        - now apply RegexFacts.lang_chr.
        - now apply (RegexFacts.lang_rep_class 1 3 Regex.digit). }
      exists (46%N :: d), []. split; [now rewrite app_nil_r|]. split; [|reflexivity].
      exists [46%N], d. split; [reflexivity|]. split.
      * now apply RegexFacts.lang_chr.
      * now apply (RegexFacts.lang_rep_class 1 3 Regex.digit).
    + exists [58%N], port. split; [reflexivity|]. split.
      * now apply RegexFacts.lang_chr.
      * now apply RegexFacts.lang_rep_class.
Qed.

(** ** Candidate collector *)

Arguments js : simpl never.

Lemma set_add_in x set t : In t (set_add x set) <-> t = x \/ In t set.
Proof.
  unfold set_add. destruct (existsb (jsstring_eqb x) set) eqn:E.
  - split; [auto|]. intros [->|H]; [|exact H].
    apply existsb_exists in E. destruct E as (y & Hy & Heq).
    apply jsstring_eqb_eq in Heq. now subst.
  - rewrite in_app_iff. simpl. intuition.
Qed.

Lemma set_add_NoDup x set : NoDup set -> NoDup (set_add x set).
Proof.
  intros H. unfold set_add. destruct (existsb (jsstring_eqb x) set) eqn:E; [exact H|].
  apply NoDup_app; auto.
  - constructor; [intros []|constructor].
  - intros y Hy [<-|[]].
    assert (existsb (jsstring_eqb x) set = true); [|congruence].
    apply existsb_exists. exists x. split; [exact Hy|apply jsstring_eqb_refl].
Qed.

Lemma addLines_fold lines : forall set t,
  In t (fold_left
          (fun set line =>
             let t := stripComment line in
             if Regex.test IP_PORT t then set_add t set else set)
          lines set) <->
  In t set \/
  exists line, In line lines /\ t = stripComment line
               /\ Regex.test IP_PORT t = true.
Proof.
  induction lines as [|l lines IH]; intros set t; simpl.
  - split; [auto|]. intros [H|(line & [] & _)]; exact H.
  - rewrite IH. destruct (Regex.test IP_PORT (stripComment l)) eqn:E.
    + rewrite set_add_in. split.
      * intros [[Ht|H]|(line & Hin & Heq & Ht)].
        -- right. exists l. subst. auto.
        -- now left.
        -- right. exists line. auto.
      * intros [H|(line & [Hl|Hin] & Heq & Ht)].
        -- left. now right.
        -- subst. left. now left.
        -- right. exists line. auto.
    + split.
      * intros [H|(line & Hin & Heq & Ht)]; [now left|].
        right. exists line. auto.
      * intros [H|(line & [Hl|Hin] & Heq & Ht)]; [now left| |].
        -- subst. congruence.
        -- right. exists line. auto.
Qed.

Lemma addLines_in text set t :
  In t (addLines text set) <->
  In t set \/
  exists line, In line (JSString.splitLines text) /\ t = stripComment line
               /\ IpPortSyntax t.
Proof.
  unfold addLines. rewrite addLines_fold. split.
  - intros [H|(line & Hin & Heq & Ht)]; [auto|].
    right. exists line. rewrite <- IP_PORT_spec. auto.
  - intros [H|(line & Hin & Heq & Ht)]; [auto|].
    right. exists line. rewrite IP_PORT_spec. auto.
Qed.

Lemma addLines_NoDup text set : NoDup set -> NoDup (addLines text set).
Proof.
  unfold addLines. generalize (JSString.splitLines text) as lines.
  intros lines. revert set.
  induction lines as [|l lines IH]; intros set H; simpl; [exact H|].
  apply IH. destruct (Regex.test IP_PORT (stripComment l)); [|exact H].
  now apply set_add_NoDup.
Qed.

(** One source: one request, and the lines of its body when it was
    fetched. *)
Lemma fetchSource_run src set env w :
  fetchSource src set env w =
  (Ok match sourceText (net env (tick w) (sourceRequest src)) with
      | Some text => addLines text set
      | None => set
      end,
   {| state := state w; tick := S (tick w);
      trace := trace w ++ [EvFetch (sourceRequest src)];
      timers := timers w |}).
Proof.
  unfold fetchSource, directFetch, fetch, try_catch, bind, emit, ask, sourceText.
  simpl. fold (sourceRequest src).
  destruct (net env (tick w) (sourceRequest src)) as [res|e]; simpl; [|reflexivity].
  destruct (res_ok res); simpl; [|reflexivity].
  destruct (res_text res); reflexivity.
Qed.

Lemma fetchSources_run srcs : forall set env w,
  fetchSources srcs set env w =
  (Ok (fold_left (fun set text => addLines text set)
                 (fetchedTexts env (tick w) srcs) set),
   {| state := state w; tick := length srcs + tick w;
      trace := trace w ++ map (fun src => EvFetch (sourceRequest src)) srcs;
      timers := timers w |}).
Proof.
  induction srcs as [|src rest IH]; intros set env w; simpl.
  - unfold ret. rewrite app_nil_r. now destruct w.
  - unfold bind at 1. rewrite fetchSource_run. rewrite IH. simpl.
    rewrite fold_left_app, <- app_assoc, Nat.add_succ_r. simpl.
    destruct (sourceText (net env (tick w) (sourceRequest src))); reflexivity.
Qed.

Lemma fold_addLines_in texts : forall set t,
  In t (fold_left (fun set text => addLines text set) texts set) <->
  In t set \/
  exists text line, In text texts /\ In line (JSString.splitLines text)
                    /\ t = stripComment line /\ IpPortSyntax t.
Proof.
  induction texts as [|x texts IH]; intros set t; simpl.
  - split; [auto|]. intros [H|(text & line & [] & _)]; exact H.
  - rewrite IH, addLines_in. split.
    + intros [[H|(line & H)]|(text & line & Hin & H)].
      * now left.
      * right. exists x, line. tauto.
      * right. exists text, line. tauto.
    + intros [H|(text & line & [Hx|Hin] & H)].
      * left. now left.
      * subst. left. right. exists line. tauto.
      * right. exists text, line. tauto.
Qed.

Lemma fold_addLines_NoDup texts : forall set,
  NoDup set -> NoDup (fold_left (fun set text => addLines text set) texts set).
Proof.
  induction texts as [|x texts IH]; intros set H; simpl; [exact H|].
  apply IH. now apply addLines_NoDup.
Qed.

(** C2 (as the code has it): the collector always returns; it keeps the
    stripped and trimmed line [t] of a fetched body exactly when [t] is
    four dot-separated runs of one to three digits, a colon and a run of
    two to five digits; it keeps no string twice.  So ["999.1.2.3:80"]
    and ["1.2.3.4:8080"] pass the pattern, and ["1.2.3.4"], ["1.2.3.4:"]
    and ["1.2.3.4:8"] do not. *)
Theorem collector_keeps_pattern_lines :
  (forall env w,
     exists candidates w',
       fetchProxyCandidates env w = (Ok candidates, w')
       /\ NoDup candidates
       /\ forall t,
            In t candidates <->
            exists text line,
              In text (fetchedTexts env (tick w) PROXY_SOURCES)
              /\ In line (JSString.splitLines text)
              /\ t = stripComment line
              /\ IpPortSyntax t)
  /\ Regex.test IP_PORT (js "999.1.2.3:80") = true
  /\ Regex.test IP_PORT (js "1.2.3.4:8080") = true
  /\ Regex.test IP_PORT (js "1.2.3.4") = false
  /\ Regex.test IP_PORT (js "1.2.3.4:") = false
  /\ Regex.test IP_PORT (js "1.2.3.4:8") = false.
Proof.
  split; [|repeat split; vm_compute; reflexivity].
  intros env w. unfold fetchProxyCandidates. rewrite fetchSources_run.
  eexists _, _. split; [reflexivity|]. split.
  - apply fold_addLines_NoDup. constructor.
  - intros t. rewrite fold_addLines_in. split.
    + intros [[]|H]. exact H.
    + intros H. now right.
Qed.

(** C2 (as the specification has it) fails: the collector keeps
    ["999.1.2.3:80"], whose first octet is not in 0-255, and drops
    ["1.2.3.4:8"], whose port has one digit. *)
Lemma collector_differs_from_spec_pattern :
  let candidates :=
    match fst (fetchProxyCandidates Scenario.envOdd Scenario.w0) with
    | Ok l => l
    | Throw _ => []
    end in
  In (js "999.1.2.3:80") candidates
  /\ Spec.ipv4_port (js "999.1.2.3:80") = false
  /\ ~ In (js "1.2.3.4:8") candidates
  /\ Spec.ipv4_port (js "1.2.3.4:8") = true
  /\ In (js "1.2.3.4:8") (map stripComment (JSString.splitLines Scenario.oddLines))
  /\ candidates = [ js "999.1.2.3:80"; js "1.2.3.4:8080" ].
Proof.
  assert (E : fst (fetchProxyCandidates Scenario.envOdd Scenario.w0)
              = Ok [ js "999.1.2.3:80"; js "1.2.3.4:8080" ])
    by (vm_compute; reflexivity).
  cbv zeta. rewrite E. repeat split.
  - now left.
  - intros [H|[H|[]]]; vm_compute in H; discriminate.
  - vm_compute. tauto.
Qed.

(** ** Proxy pool: rotation *)

Lemma nextProxy_empty env w :
  proxyPool (state w) = [] -> nextProxy env w = (Ok None, w).
Proof.
  intros H. unfold nextProxy, bind, get. now rewrite H.
Qed.

Lemma nextProxy_head env w p rest :
  proxyPool (state w) = p :: rest ->
  nextProxy env w =
  (Ok (Some p),
   {| state := set_proxyPool (rest ++ [p]) (state w); tick := tick w;
      trace := trace w; timers := timers w |}).
Proof.
  intros H. unfold nextProxy, bind, get. now rewrite H.
Qed.

(** Checking out as many times as a prefix [a] of the pool is long
    returns the members of [a] in order and moves [a] behind the rest. *)
Lemma checkouts_rotate a : forall b env w,
  proxyPool (state w) = a ++ b ->
  exists w',
    checkouts (length a) env w = (Ok (map Some a), w')
    /\ proxyPool (state w') = b ++ a.
Proof.
  unfold checkouts.
  induction a as [|x a IH]; intros b env w H; simpl.
  - exists w. rewrite app_nil_r. auto.
  - unfold bind at 1. rewrite (nextProxy_head env w (p := x) (rest := a ++ b) H).
    set (w1 := {| state := set_proxyPool ((a ++ b) ++ [x]) (state w);
                  tick := tick w; trace := trace w; timers := timers w |}).
    destruct (IH (b ++ [x]) env w1) as (w' & E & Hpool).
    { simpl. now rewrite app_assoc. }
    exists w'. unfold bind. rewrite E. simpl. split; [reflexivity|].
    rewrite Hpool, <- app_assoc. reflexivity.
Qed.

(** C5: on a pool of [N] distinct members, [N] calls of [nextProxy] in a
    row return the members in the order of the pool, hence every member
    exactly once, and leave the pool as it was, so that the call after
    them returns the first member again; and every single call returns
    the head of the pool and moves it to the tail. *)
Theorem checkout_round_robin env w pool :
  proxyPool (state w) = pool ->
  NoDup pool ->
  (exists w',
     checkouts (length pool) env w = (Ok (map Some pool), w')
     /\ (forall p, In p pool -> count_occ jsstring_eq_dec pool p = 1)
     /\ proxyPool (state w') = pool
     /\ fst (nextProxy env w') = fst (nextProxy env w))
  /\ (forall p rest,
        pool = p :: rest ->
        exists w1, nextProxy env w = (Ok (Some p), w1)
                   /\ proxyPool (state w1) = rest ++ [p]).
Proof.
  intros Hpool Hnd. split.
  - destruct (checkouts_rotate pool [] env w) as (w' & E & Hp').
    { now rewrite app_nil_r. }
    exists w'. simpl in Hp'. repeat split; auto.
    + intros p Hp. now apply NoDup_count_occ'.
    + destruct pool as [|p rest].
      * now rewrite !nextProxy_empty.
      * now rewrite (nextProxy_head env w' Hp'), (nextProxy_head env w Hpool).
  - intros p rest ->. eexists. split; [apply (nextProxy_head env w Hpool)|reflexivity].
Qed.

Lemma checkout_round_robin_witness :
  proxyPool (state Scenario.wTwo) = Scenario.twoProxies
  /\ NoDup Scenario.twoProxies
  /\ exists w',
       checkouts 2 Scenario.envAllGood Scenario.wTwo
       = (Ok [ Some (js "1.2.3.4:8080"); Some (js "5.6.7.8:3128") ], w')
       /\ proxyPool (state w') = Scenario.twoProxies.
Proof.
  assert (H1 : proxyPool (state Scenario.wTwo) = Scenario.twoProxies)
    by reflexivity.
  assert (H2 : NoDup Scenario.twoProxies).
  { repeat constructor; simpl; intuition discriminate. }
  split; [exact H1|]. split; [exact H2|].
  destruct (@checkout_round_robin Scenario.envAllGood Scenario.wTwo
              Scenario.twoProxies H1 H2) as [(w' & E & _ & Hp & _) _].
  exists w'. split; [exact E|exact Hp].
Defined.

(** ** Proxy pool: removal *)

Lemma evict_run x env w :
  evict x env w =
  (Ok tt,
   {| state :=
        set_proxyWorking
          (length (filter (fun p => negb (jsstring_eqb p x)) (proxyPool (state w))))
          (set_proxyPool
             (filter (fun p => negb (jsstring_eqb p x)) (proxyPool (state w)))
             (state w));
      tick := tick w; trace := trace w; timers := timers w |}).
Proof. reflexivity. Qed.

Lemma filter_other_absent x (pool : list jsstring) :
  ~ In x (filter (fun p => negb (jsstring_eqb p x)) pool).
Proof.
  intros H. apply filter_In in H. destruct H as [_ H].
  now rewrite jsstring_eqb_refl in H.
Qed.

Lemma filter_other_noop x (pool : list jsstring) :
  ~ In x pool -> filter (fun p => negb (jsstring_eqb p x)) pool = pool.
Proof.
  induction pool as [|y pool IH]; intros H; simpl; [reflexivity|].
  destruct (jsstring_eqb y x) eqn:E; simpl.
  - apply jsstring_eqb_eq in E. subst. exfalso. apply H. now left.
  - f_equal. apply IH. intros Hin. apply H. now right.
Qed.

(** A proxy that is not in the pool is not returned by any run of
    checkouts and removals, and is not in the pool after it. *)
Lemma poolOps_absent x ops : forall env w,
  ~ In x (proxyPool (state w)) ->
  exists l w',
    poolOps ops env w = (Ok l, w')
    /\ ~ In (Some x) l
    /\ ~ In x (proxyPool (state w')).
Proof.
  induction ops as [|[|y] ops IH]; intros env w H; simpl.
  - exists [], w. repeat split; auto.
  - destruct (proxyPool (state w)) as [|p rest] eqn:E.
    + unfold bind at 1. rewrite (nextProxy_empty env w E).
      destruct (IH env w) as (l & w' & E' & Hl & Hw'); [now rewrite E|].
      exists (None :: l), w'. unfold bind. rewrite E'. simpl.
      repeat split; auto. intros [?|?]; [discriminate|auto].
    + unfold bind at 1. rewrite (nextProxy_head env w E).
      set (w1 := {| state := set_proxyPool (rest ++ [p]) (state w);
                    tick := tick w; trace := trace w; timers := timers w |}).
      destruct (IH env w1) as (l & w' & E' & Hl & Hw').
      { simpl. rewrite in_app_iff. simpl. intros [?|[?|[]]].
        - apply H. now right.
        - apply H. now left. }
      exists (Some p :: l), w'. unfold bind. rewrite E'. simpl.
      repeat split; auto. intros [Hp|?]; [|auto].
      injection Hp as ->. apply H. now left.
  - unfold bind at 1. rewrite evict_run.
    match goal with |- context [poolOps ops env ?w1] =>
      destruct (IH env w1) as (l & w' & E' & Hl & Hw') end.
    { simpl. intros Hin. apply filter_In in Hin. tauto. }
    exists l, w'. auto.
Qed.

(** C8: the removal of [x] leaves no occurrence of [x] in the pool and
    keeps every other member; whatever checkouts and removals follow,
    none of the checkouts returns [x]; and when [x] was not in the pool,
    the pool is as it was. *)
Theorem evicted_proxy_not_returned env w x :
  exists w1,
    evict x env w = (Ok tt, w1)
    /\ ~ In x (proxyPool (state w1))
    /\ (forall y, y <> x -> count_occ jsstring_eq_dec (proxyPool (state w1)) y
                            = count_occ jsstring_eq_dec (proxyPool (state w)) y)
    /\ (forall ops env',
          exists l w', poolOps ops env' w1 = (Ok l, w') /\ ~ In (Some x) l)
    /\ (~ In x (proxyPool (state w)) ->
        proxyPool (state w1) = proxyPool (state w)).
Proof.
  eexists. split; [apply evict_run|]. simpl. repeat split.
  - apply filter_other_absent.
  - intros y Hy. induction (proxyPool (state w)) as [|p pool IH]; simpl; auto.
    destruct (jsstring_eqb p x) eqn:E; simpl.
    + apply jsstring_eqb_eq in E. subst p.
      destruct (jsstring_eq_dec x y); [congruence|exact IH].
    + destruct (jsstring_eq_dec p y); [f_equal|]; exact IH.
  - intros ops env'.
    match goal with |- context [poolOps ops env' ?w1] =>
      destruct (@poolOps_absent x ops env' w1) as (l & w' & E & Hl & _) end.
    + simpl. apply filter_other_absent.
    + exists l, w'. auto.
  - apply filter_other_noop.
Qed.

Lemma evicted_proxy_not_returned_witness :
  ~ In (js "9.9.9.9:99") (proxyPool (state Scenario.wTwo))
  /\ proxyPool (state (snd (evict (js "9.9.9.9:99") Scenario.envAllGood Scenario.wTwo)))
     = proxyPool (state Scenario.wTwo).
Proof.
  assert (H : ~ In (js "9.9.9.9:99") (proxyPool (state Scenario.wTwo))).
  { simpl. intuition discriminate. }
  split; [exact H|].
  destruct (evicted_proxy_not_returned Scenario.envAllGood Scenario.wTwo
              (js "9.9.9.9:99")) as (w1 & E & _ & _ & _ & Hnoop).
  rewrite E. simpl. exact (Hnoop H).
Defined.

(** C9: on an empty pool [nextProxy] returns [null], throws nothing and
    changes nothing; on a pool of one member, every call returns that
    member, and the pool still holds that one member. *)
Theorem checkout_empty_and_single env w :
  (proxyPool (state w) = [] -> nextProxy env w = (Ok None, w))
  /\ (forall x n,
        proxyPool (state w) = [x] ->
        exists w',
          checkouts n env w = (Ok (repeat (Some x) n), w')
          /\ proxyPool (state w') = [x]
          /\ length (proxyPool (state w')) = length (proxyPool (state w))).
Proof.
  split; [apply nextProxy_empty|].
  intros x n. revert w. unfold checkouts.
  induction n as [|n IH]; intros w H; simpl.
  - exists w. rewrite H. auto.
  - unfold bind at 1. rewrite (nextProxy_head env w H).
    unfold bind at 1.
    match goal with |- context [poolOps _ env ?w1] =>
      destruct (IH w1) as (w' & E & Hp & Hl) end; [reflexivity|].
    exists w'. rewrite E. simpl. rewrite Hp, H. auto.
Qed.

Lemma checkout_empty_and_single_witness :
  proxyPool (state Scenario.w0) = []
  /\ proxyPool (state Scenario.wDownload) = [ js "1.2.3.4:8080" ]
  /\ nextProxy Scenario.envAllGood Scenario.w0 = (Ok None, Scenario.w0)
  /\ exists w',
       checkouts 3 Scenario.envAllGood Scenario.wDownload
       = (Ok (repeat (Some (js "1.2.3.4:8080")) 3), w')
       /\ proxyPool (state w') = [ js "1.2.3.4:8080" ].
Proof.
  assert (H0 : proxyPool (state Scenario.w0) = []) by reflexivity.
  assert (H1 : proxyPool (state Scenario.wDownload) = [ js "1.2.3.4:8080" ])
    by reflexivity.
  split; [exact H0|]. split; [exact H1|]. split.
  - exact (proj1 (checkout_empty_and_single Scenario.envAllGood Scenario.w0) H0).
  - destruct (proj2 (checkout_empty_and_single Scenario.envAllGood
                       Scenario.wDownload) (js "1.2.3.4:8080") 3 H1)
      as (w' & E & Hp & _).
    exists w'. split; [exact E|exact Hp].
Defined.

(** ** What a computation leaves alone *)

Section KeepsLemmas.
Variables St X : Type.
Variable g : World St -> X.
Hypothesis g_insensitive : Insensitive g.

Lemma keeps_ret A (a : A) : Keeps g (ret a).
Proof. intros env w. reflexivity. Qed.

Lemma keeps_throw A (e : Exn) : Keeps g (@throw St A e).
Proof. intros env w. reflexivity. Qed.

Lemma keeps_get : Keeps g get.
Proof. intros env w. reflexivity. Qed.

Lemma keeps_bind A B (m : M St A) (k : A -> M St B) :
  Keeps g m -> (forall a, Keeps g (k a)) -> Keeps g (bind m k).
Proof.
  intros Hm Hk env w. unfold bind. specialize (Hm env w).
  destruct (m env w) as [[a|e] w1]; simpl in *; [|exact Hm].
  now rewrite Hk.
Qed.

Lemma keeps_try A (m : M St A) (h : Exn -> M St A) :
  Keeps g m -> (forall e, Keeps g (h e)) -> Keeps g (try_catch m h).
Proof.
  intros Hm Hh env w. unfold try_catch. specialize (Hm env w).
  destruct (m env w) as [[a|e] w1]; simpl in *; [exact Hm|].
  now rewrite Hh.
Qed.

Lemma keeps_ask A (f : Env -> nat -> A) : Keeps g (ask f).
Proof. intros env [s n tr tm]. apply g_insensitive. Qed.

Lemma keeps_emit ev : Keeps g (emit ev).
Proof. intros env [s n tr tm]. apply g_insensitive. Qed.

Lemma keeps_modify (f : St -> St) :
  (forall s n tr tm,
     g {| state := f s; tick := n; trace := tr; timers := tm |}
     = g {| state := s; tick := n; trace := tr; timers := tm |}) ->
  Keeps g (modify f).
Proof. intros H env [s n tr tm]. apply H. Qed.

Lemma keeps_awaitCall A (m : M St A) : Keeps g m -> Keeps g (awaitCall m).
Proof.
  intros Hm env w. unfold awaitCall. specialize (Hm env w).
  destruct (m env w) as [[a|e] [s n tr tm]]; simpl in *; [|exact Hm].
  rewrite <- Hm. apply g_insensitive.
Qed.

Lemma keeps_spawn A (m : M St A) : Keeps g m -> Keeps g (spawn m).
Proof. intros Hm env w. apply Hm. Qed.

Lemma keeps_when c (m : M St unit) : Keeps g m -> Keeps g (when c m).
Proof. intros Hm. destruct c; [exact Hm|apply keeps_ret]. Qed.

Lemma keeps_settle A (r : Result A) : Keeps g (settle (St := St) r).
Proof. destruct r; [apply keeps_ret|apply keeps_throw]. Qed.

Lemma keeps_fetch req : Keeps g (fetch req).
Proof.
  unfold fetch. apply keeps_bind; [apply keeps_emit|intros _].
  apply keeps_bind; [apply keeps_ask|intros [res|e]].
  - apply keeps_ret.
  - apply keeps_throw.
Qed.

Lemma keeps_promiseAll A B (f : A -> M St B) xs :
  (forall x, Keeps g (f x)) -> Keeps g (promiseAll f xs).
Proof.
  intros Hf. induction xs as [|x xs IH]; simpl; [apply keeps_ret|].
  apply keeps_bind; [apply Hf|intros y].
  apply keeps_bind; [exact IH|intros ys]. apply keeps_ret.
Qed.

End KeepsLemmas.

Lemma keeps_log X (g : World State -> X) msg type :
  OffLog g -> Keeps g (log msg type).
Proof.
  intros [Hi Hl]. unfold log, now.
  apply keeps_bind; [now apply keeps_ask|intros ts].
  apply keeps_modify. intros s n tr tm. apply Hl.
Qed.

Lemma keeps_legacy_log X (g : World Legacy.State -> X) msg type :
  Insensitive g ->
  (forall s n tr tm entries,
     g {| state := Legacy.set_log entries s; tick := n; trace := tr; timers := tm |}
     = g {| state := s; tick := n; trace := tr; timers := tm |}) ->
  Keeps g (Legacy.log msg type).
Proof.
  intros Hi Hl. unfold Legacy.log, now.
  apply keeps_bind; [now apply keeps_ask|intros ts].
  apply keeps_modify. intros s n tr tm. apply Hl.
Qed.

(** Side conditions on a concrete observation hold by computation. *)
Ltac keeps_side :=
  solve [ intros; reflexivity
        | red; intros; reflexivity
        | split; [red; intros; reflexivity | intros; reflexivity] ].

(** One step in showing that a computation keeps an observation: by the
    shape of the computation. *)
Ltac keeps_step :=
  first
    [ progress cbv zeta
    | match goal with |- forall _, _ => intro end
    | lazymatch goal with
      | |- Keeps _ (ret _) => apply keeps_ret
      | |- Keeps _ (throw _) => apply keeps_throw
      | |- Keeps _ get => apply keeps_get
      | |- Keeps _ (settle _) => apply keeps_settle
      | |- Keeps _ (fetch _) => apply keeps_fetch; keeps_side
      | |- Keeps _ (log _ _) => apply keeps_log; keeps_side
      | |- Keeps _ (Legacy.log _ _) => apply keeps_legacy_log; keeps_side
      | |- Keeps _ (ask _) => apply keeps_ask; keeps_side
      | |- Keeps _ (emit _) => apply keeps_emit; keeps_side
      | |- Keeps _ (modify _) => apply keeps_modify; keeps_side
      | |- Keeps _ (bind _ _) => apply keeps_bind
      | |- Keeps _ (try_catch _ _) => apply keeps_try
      | |- Keeps _ (awaitCall _) => apply keeps_awaitCall; [keeps_side|]
      | |- Keeps _ (spawn _) => apply keeps_spawn
      | |- Keeps _ (when _ _) => apply keeps_when
      | |- Keeps _ (promiseAll _ _) => apply keeps_promiseAll
      | |- Keeps _ (if ?x then _ else _) => destruct x
      | |- Keeps _ (match ?x with _ => _ end) => destruct x
      end ].

Ltac keeps := repeat keeps_step.

Section KeepsCollect.
Variable X : Type.
Variable g : World State -> X.
Hypothesis g_offlog : OffLog g.

Let g_insensitive : Insensitive g := proj1 g_offlog.

Lemma keeps_fetchSources srcs : forall set, Keeps g (fetchSources srcs set).
Proof.
  induction srcs as [|src rest IH]; intros set; simpl; [apply keeps_ret|].
  apply keeps_bind; [|intros set'; apply IH].
  intros env w. rewrite fetchSource_run. destruct w. apply g_insensitive.
Qed.

Lemma keeps_testProxy hp : Keeps g (testProxy hp).
Proof.
  unfold testProxy. apply keeps_try; [|intros; apply keeps_ret].
  apply keeps_bind; [now apply keeps_fetch|intros res].
  destruct (negb (res_ok res)); [apply keeps_ret|].
  apply keeps_bind; [apply keeps_settle|intros [| | |[o|]]];
    apply keeps_ret || apply keeps_throw.
Qed.

Lemma keeps_testBatches fuel : forall pool i working,
  Keeps g (testBatches fuel pool i working).
Proof.
  induction fuel as [|fuel IH]; intros pool i working; simpl;
    destruct ((i <? length pool) && (length working <? 35));
    try apply keeps_ret.
  apply keeps_bind; [|intros results; apply IH].
  apply keeps_awaitCall; [exact g_insensitive|].
  apply keeps_promiseAll. intros hp.
  apply keeps_bind; [apply keeps_testProxy|intros b; apply keeps_ret].
Qed.

(** The refresher writes nothing but the log until it has its working
    set. *)
Lemma keeps_refreshCollect : Keeps g refreshCollect.
Proof.
  unfold refreshCollect, fetchProxyCandidates, sortRandom.
  apply keeps_bind.
  { apply keeps_awaitCall; [exact g_insensitive|apply keeps_fetchSources]. }
  intros candidates. apply keeps_bind; [now apply keeps_log|intros _].
  apply keeps_bind.
  { apply keeps_bind; [now apply keeps_ask|intros; apply keeps_ret]. }
  intros sorted. cbv zeta.
  apply keeps_bind; [apply keeps_testBatches|intros; apply keeps_ret].
Qed.

End KeepsCollect.

(** ** Running a computation *)

Lemma bind_ok_inv St A B (m : M St A) (k : A -> M St B) env w b w' :
  bind m k env w = (Ok b, w') ->
  exists a w1, m env w = (Ok a, w1) /\ k a env w1 = (Ok b, w').
Proof.
  unfold bind. destruct (m env w) as [[a|e] w1]; intros H; [|discriminate].
  now exists a, w1.
Qed.

Lemma awaitCall_ok_inv St A (m : M St A) env w a w' :
  awaitCall m env w = (Ok a, w') ->
  exists w1, m env w = (Ok a, w1) /\ state w' = state w1.
Proof.
  unfold awaitCall. destruct (m env w) as [[a1|e] w1]; [|discriminate].
  destruct (fault env (tick w1)); intros H; inversion H; subst.
  now exists w1.
Qed.

Lemma log_run msg type env w :
  log msg type env w =
  (Ok tt,
   {| state :=
        set_log
          (unshiftCapped 150
             {| entry_ts := date_now env (tick w); entry_msg := msg;
                entry_type := type |} (state_log (state w)))
          (state w);
      tick := S (tick w); trace := trace w; timers := timers w |}).
Proof. reflexivity. Qed.

Lemma promiseAll_length St A B (f : A -> M St B) xs : forall env w ys w',
  promiseAll f xs env w = (Ok ys, w') -> length ys = length xs.
Proof.
  induction xs as [|x xs IH]; intros env w ys w' H; simpl in H.
  - inversion H. reflexivity.
  - apply bind_ok_inv in H. destruct H as (y & w1 & _ & H).
    apply bind_ok_inv in H. destruct H as (ys' & w2 & H & Hret).
    inversion Hret. subst. simpl. f_equal. eapply IH, H.
Qed.

(** ** Pool refresher *)

Lemma filterBoolean_length results :
  length (filterBoolean results) <= length results.
Proof.
  induction results as [|[[|c hp]|] results IH]; simpl; lia.
Qed.

Lemma slice_length A (a b : nat) (arr : list A) :
  length (slice a b arr) <= b - a.
Proof. unfold slice. apply firstn_le_length. Qed.

(** The loop adds at most one batch to a working set of fewer than 35. *)
Lemma testBatches_bound fuel : forall pool i working env w working' w',
  testBatches fuel pool i working env w = (Ok working', w') ->
  length working' <= Nat.max (length working) (34 + BATCH).
Proof.
  induction fuel as [|fuel IH]; intros pool i working env w working' w' H;
    simpl in H;
    destruct ((i <? length pool) && (length working <? 35)) eqn:C;
    try (inversion H; subst; lia).
  apply andb_true_iff in C. destruct C as [_ C]. apply Nat.ltb_lt in C.
  apply bind_ok_inv in H. destruct H as (results & w1 & Hres & H).
  apply awaitCall_ok_inv in Hres. destruct Hres as (w2 & Hres & _).
  apply promiseAll_length in Hres.
  apply IH in H. rewrite length_app in H.
  pose proof (filterBoolean_length results) as Hf.
  pose proof (slice_length i (i + BATCH) pool) as Hs.
  unfold BATCH in *. lia.
Qed.

(** The bound on the batches never cuts the loop short: any two bounds of
    at least the number of untested candidates give the same run. *)
Lemma testBatches_fuel fuel1 : forall fuel2 pool i working env w,
  length pool <= i + fuel1 ->
  length pool <= i + fuel2 ->
  testBatches fuel1 pool i working env w
  = testBatches fuel2 pool i working env w.
Proof.
  induction fuel1 as [|fuel1 IH]; intros [|fuel2] pool i working env w H1 H2;
    simpl;
    destruct ((i <? length pool) && (length working <? 35)) eqn:C;
    try reflexivity;
    apply andb_true_iff in C; destruct C as [C _]; apply Nat.ltb_lt in C;
    try lia.
  unfold bind.
  destruct (awaitCall _ env w) as [[results|e] w1]; [|reflexivity].
  apply IH; unfold BATCH; lia.
Qed.

Lemma refreshEnter_run env w :
  refreshEnter env w =
  (Ok tt,
   {| state :=
        set_log
          (unshiftCapped 150
             {| entry_ts := date_now env (tick w);
                entry_msg := MsgFetchingCandidates; entry_type := info |}
             (state_log (state w)))
          (set_proxyRefreshing true (state w));
      tick := S (tick w); trace := trace w; timers := timers w |}).
Proof. reflexivity. Qed.

Lemma refreshInstall_run pool working env w :
  exists w',
    refreshInstall pool working env w = (Ok tt, w')
    /\ proxyPool (state w') = working
    /\ proxyWorking (state w') = length working
    /\ proxyTested (state w') = Nat.min (length pool) 80
    /\ proxyRefreshing (state w') = proxyRefreshing (state w).
Proof. eexists. split; [reflexivity|]. simpl. auto. Qed.

(** What the sample and the working set of a refresh can be. *)
Lemma refreshCollect_bound env w pool working w1 :
  refreshCollect env w = (Ok (pool, working), w1) ->
  length pool <= 80 /\ length working <= 34 + BATCH.
Proof.
  unfold refreshCollect. intros H.
  apply bind_ok_inv in H. destruct H as (candidates & w2 & _ & H).
  apply bind_ok_inv in H. destruct H as ([] & w3 & _ & H).
  apply bind_ok_inv in H. destruct H as (sorted & w4 & _ & H).
  cbv zeta in H.
  apply bind_ok_inv in H. destruct H as (working0 & w5 & Hloop & H).
  inversion H. subst. split.
  - pose proof (slice_length 0 80 sorted). lia.
  - apply testBatches_bound in Hloop. simpl in Hloop. exact Hloop.
Qed.

(** From its guard to the end of its test pass, a refresh holds the flag:
    a refresh is under way exactly when [state.proxyRefreshing] is set. *)
Lemma refresh_holds_flag env w :
  proxyRefreshing (state (snd (refreshEnter env w))) = true
  /\ proxyRefreshing
       (state (snd (refreshCollect env (snd (refreshEnter env w))))) = true.
Proof.
  split; [reflexivity|].
  rewrite (@keeps_refreshCollect _ (fun w => proxyRefreshing (state w))).
  - reflexivity.
  - split; [red; intros; reflexivity|intros; reflexivity].
Qed.

(** C6: while a refresh is under way, [refreshProxyPool] returns at once:
    the state, the log and the pool are as they were, no request has been
    made and no oracle has been asked. *)
Theorem refresh_single_flight env w :
  proxyRefreshing (state w) = true ->
  refreshProxyPool env w = (Ok tt, w)
  /\ fetches (trace (snd (refreshProxyPool env w))) = fetches (trace w)
  /\ state (snd (refreshProxyPool env w)) = state w.
Proof.
  intros H.
  assert (E : refreshProxyPool env w = (Ok tt, w)).
  { unfold refreshProxyPool, bind, get. now rewrite H. }
  rewrite E. auto.
Qed.

Lemma refresh_single_flight_witness :
  proxyRefreshing (state Scenario.wRefreshing) = true
  /\ refreshProxyPool Scenario.envAllGood Scenario.wRefreshing
     = (Ok tt, Scenario.wRefreshing).
Proof.
  assert (H : proxyRefreshing (state Scenario.wRefreshing) = true)
    by reflexivity.
  split; [exact H|].
  exact (proj1 (refresh_single_flight Scenario.envAllGood Scenario.wRefreshing H)).
Defined.

(** The shape of every run of [refreshProxyPool] that passes the guard. *)
Lemma refreshProxyPool_run env w :
  proxyRefreshing (state w) = false ->
  exists w2 w3,
    refreshProxyPool env w
    = (Ok tt, {| state := set_proxyRefreshing false (state w3);
                 tick := tick w3; trace := trace w3; timers := timers w3 |})
    /\ match refreshTry env (snd (refreshEnter env w)) with
       | (Ok _, w2') => w2 = w2' /\ w3 = w2'
       | (Throw e, w2') =>
           w2 = w2' /\ w3 = snd (log (MsgRefreshError (exn_message e)) err env w2')
       end.
Proof.
  intros H. unfold refreshProxyPool. unfold bind at 1. unfold get.
  rewrite H. unfold bind at 1. rewrite refreshEnter_run.
  unfold bind, try_catch. cbn [snd].
  destruct (refreshTry env _) as [[[]|e] w2].
  - exists w2, w2. auto.
  - rewrite log_run. eexists w2, _. split; [reflexivity|]. auto.
Qed.

(** The [try] block never writes the flag, whether it ends normally or
    throws. *)
Lemma refreshTry_keeps_flag env w :
  proxyRefreshing (state (snd (refreshTry env w))) = proxyRefreshing (state w).
Proof.
  assert (Hk : proxyRefreshing (state (snd (refreshCollect env w)))
               = proxyRefreshing (state w)).
  { apply (@keeps_refreshCollect _ (fun w => proxyRefreshing (state w))).
    split; [red; intros; reflexivity|intros; reflexivity]. }
  unfold refreshTry, bind.
  destruct (refreshCollect env w) as [[pw|e] w1]; cbn [snd] in *.
  - destruct (refreshInstall_run (fst pw) (snd pw) env w1)
      as (w' & E & _ & _ & _ & Hflag).
    rewrite E. cbn [snd]. congruence.
  - exact Hk.
Qed.

(** C10: a call of [refreshProxyPool] that passes the guard raises the
    flag before its [try] block, holds it to the end of the [try] block
    and, when that block throws, to the end of the [catch] block, and
    returns, without throwing, the state it has reached there with the
    flag cleared: on both paths the flag is down when the call returns. *)
Theorem refresh_clears_flag env w :
  proxyRefreshing (state w) = false ->
  exists w1 w2 w3,
    refreshEnter env w = (Ok tt, w1)
    /\ proxyRefreshing (state w1) = true
    /\ match refreshTry env w1 with
       | (Ok _, w2') => w2 = w2' /\ w3 = w2'
       | (Throw e, w2') =>
           w2 = w2'
           /\ log (MsgRefreshError (exn_message e)) err env w2' = (Ok tt, w3)
       end
    /\ proxyRefreshing (state w2) = true
    /\ proxyRefreshing (state w3) = true
    /\ refreshProxyPool env w
       = (Ok tt, {| state := set_proxyRefreshing false (state w3);
                    tick := tick w3; trace := trace w3; timers := timers w3 |})
    /\ proxyRefreshing (state (snd (refreshProxyPool env w))) = false.
Proof.
  intros H.
  destruct (refreshProxyPool_run env w H) as (w2 & w3 & E & Hrun).
  pose proof (refreshTry_keeps_flag env (snd (refreshEnter env w))) as Hk.
  exists (snd (refreshEnter env w)), w2, w3.
  split; [reflexivity|]. split; [reflexivity|].
  destruct (refreshTry env (snd (refreshEnter env w))) as [[[]|e] w2'];
    destruct Hrun as [-> ->]; cbn [snd] in Hk.
  - split; [auto|]. split; [exact Hk|]. split; [exact Hk|].
    split; [exact E|]. rewrite E. reflexivity.
  - split; [split; [reflexivity|apply log_run]|].
    split; [exact Hk|]. split; [rewrite log_run; exact Hk|].
    split; [exact E|]. rewrite E. reflexivity.
Qed.

Lemma refresh_clears_flag_witness :
  proxyRefreshing (state Scenario.wTwo) = false
  /\ (exists e w2, refreshTry Scenario.envFaulty
                     (snd (refreshEnter Scenario.envFaulty Scenario.wTwo))
                   = (Throw e, w2))
  /\ (exists w2, refreshTry Scenario.envAllGood
                   (snd (refreshEnter Scenario.envAllGood Scenario.wTwo))
                 = (Ok tt, w2))
  /\ proxyRefreshing
       (state (snd (refreshProxyPool Scenario.envFaulty Scenario.wTwo))) = false
  /\ proxyRefreshing
       (state (snd (refreshProxyPool Scenario.envAllGood Scenario.wTwo))) = false.
Proof.
  assert (H : proxyRefreshing (state Scenario.wTwo) = false) by reflexivity.
  split; [exact H|].
  split; [eexists _, _; vm_compute; reflexivity|].
  split; [eexists; vm_compute; reflexivity|].
  split.
  - destruct (refresh_clears_flag Scenario.envFaulty Scenario.wTwo H)
      as (w1 & w2 & w3 & _ & _ & _ & _ & _ & _ & Hflag).
    exact Hflag.
  - destruct (refresh_clears_flag Scenario.envAllGood Scenario.wTwo H)
      as (w1 & w2 & w3 & _ & _ & _ & _ & _ & _ & Hflag).
    exact Hflag.
Defined.

Lemma unshiftCapped_head A cap (x : A) l :
  1 <= cap -> hd_error (unshiftCapped cap x l) = Some x.
Proof.
  intros Hc. unfold unshiftCapped. cbv zeta.
  destruct l as [|y l].
  - destruct (Nat.ltb_spec cap (length [x])) as [C|C]; [simpl in C; lia|].
    reflexivity.
  - destruct (cap <? length (x :: y :: l)); reflexivity.
Qed.

Lemma offLog_OffLog : OffLog offLog.
Proof. split; [red; intros; reflexivity|intros; reflexivity]. Qed.

(** A refresh whose [try] block fails before the install: the call
    returns, and what it has written is the log. *)
Lemma refreshProxyPool_failed env w e w1 :
  proxyRefreshing (state w) = false ->
  refreshCollect env (snd (refreshEnter env w)) = (Throw e, w1) ->
  exists w',
    refreshProxyPool env w = (Ok tt, w')
    /\ set_log [] (state w') = set_log [] (state w)
    /\ state_log (state w')
       = unshiftCapped 150
           {| entry_ts := date_now env (tick w1);
              entry_msg := MsgRefreshError (exn_message e);
              entry_type := err |}
           (state_log (state w1)).
Proof.
  intros H Hc.
  destruct (refreshProxyPool_run env w H) as (w2 & w3 & E & Hrun).
  unfold refreshTry in Hrun. unfold bind in Hrun. rewrite Hc in Hrun.
  destruct Hrun as [-> ->]. rewrite E. eexists. split; [reflexivity|].
  pose proof (keeps_refreshCollect offLog_OffLog env (snd (refreshEnter env w)))
    as Hk.
  rewrite Hc in Hk. unfold offLog in Hk. simpl in Hk.
  rewrite log_run. cbn [snd state]. split; [|reflexivity].
  transitivity (set_proxyRefreshing false (set_log [] (state w1))).
  - reflexivity.
  - rewrite Hk. destruct w as [[] ? ? ?]. simpl in *. subst. reflexivity.
Qed.

(** C3: when the [try] block of [refreshProxyPool] is left by an error
    before the new pool is put in place, the call still returns, and the
    state it leaves differs from the state it found in the log only: the
    pool, its counts and the time of the last refresh are what they
    were. *)
Theorem refresh_error_keeps_pool env w e w1 :
  proxyRefreshing (state w) = false ->
  refreshCollect env (snd (refreshEnter env w)) = (Throw e, w1) ->
  exists w',
    refreshProxyPool env w = (Ok tt, w')
    /\ proxyPool (state w') = proxyPool (state w)
    /\ proxyWorking (state w') = proxyWorking (state w)
    /\ proxyTested (state w') = proxyTested (state w)
    /\ lastProxyRefresh (state w') = lastProxyRefresh (state w)
    /\ set_log [] (state w') = set_log [] (state w)
    /\ exists ts, hd_error (state_log (state w'))
                  = Some {| entry_ts := ts;
                            entry_msg := MsgRefreshError (exn_message e);
                            entry_type := err |}.
Proof.
  intros H Hc.
  destruct (refreshProxyPool_failed env w H Hc) as (w' & E & Hs & Hlog).
  exists w'. split; [exact E|].
  assert (Hf : forall X (f : State -> X),
             (forall s, f (set_log [] s) = f s) ->
             f (state w') = f (state w)).
  { intros X f Hf. rewrite <- (Hf (state w')), <- (Hf (state w)).
    now rewrite Hs. }
  split; [apply Hf; reflexivity|]. split; [apply Hf; reflexivity|].
  split; [apply Hf; reflexivity|]. split; [apply Hf; reflexivity|].
  split; [exact Hs|].
  rewrite Hlog. eexists. apply unshiftCapped_head. lia.
Qed.

Lemma refresh_error_keeps_pool_witness :
  proxyRefreshing (state Scenario.wTwo) = false
  /\ (exists w1,
        refreshCollect Scenario.envFaulty
          (snd (refreshEnter Scenario.envFaulty Scenario.wTwo))
        = (Throw Scenario.boom, w1))
  /\ proxyPool (state (snd (refreshProxyPool Scenario.envFaulty Scenario.wTwo)))
     = Scenario.twoProxies.
Proof.
  assert (H : proxyRefreshing (state Scenario.wTwo) = false) by reflexivity.
  assert (Hc : refreshCollect Scenario.envFaulty
                 (snd (refreshEnter Scenario.envFaulty Scenario.wTwo))
               = (Throw Scenario.boom,
                  snd (refreshCollect Scenario.envFaulty
                         (snd (refreshEnter Scenario.envFaulty Scenario.wTwo)))))
    by (vm_compute; reflexivity).
  split; [exact H|]. split; [eexists; exact Hc|].
  destruct (refresh_error_keeps_pool Scenario.envFaulty Scenario.wTwo H Hc)
    as (w' & E & Hpool & _).
  rewrite E. exact Hpool.
Defined.

(** The install of a refresh: what it writes, from the sample and the
    working set it is given. *)
Lemma refreshInstall_installs pool working env w :
  exists w',
    refreshInstall pool working env w = (Ok tt, w')
    /\ proxyPool (state w') = working
    /\ proxyWorking (state w') = length working
    /\ proxyTested (state w') = Nat.min (length pool) 80
    /\ lastProxyRefresh (state w') = Some (date_now env (tick w)).
Proof. eexists. split; [reflexivity|]. simpl. auto. Qed.

(** C1 (as the code has it): every call of [refreshProxyPool] returns.
    A call made while a refresh is under way changes nothing.  A call that
    passes the guard and completes its test pass has put in place the
    whole working set of that pass, with its counts and the time of the
    refresh, and that set holds between 0 and 49 proxies: testing stops at
    the first batch boundary at which 35 are reached, so that up to one
    batch of 15 is added to as many as 34.  A call whose test pass is left
    by an error leaves the pool, and all of the state but the log, as it
    found them. *)
Theorem refresh_pool_atomic_and_bounded env w :
  exists w',
    refreshProxyPool env w = (Ok tt, w')
    /\ if proxyRefreshing (state w) then w' = w
       else
         match refreshCollect env (snd (refreshEnter env w)) with
         | (Ok (pool, working), _) =>
             proxyPool (state w') = working
             /\ proxyWorking (state w') = length working
             /\ proxyTested (state w') = Nat.min (length pool) 80
             /\ lastProxyRefresh (state w') <> None
             /\ 0 <= length (proxyPool (state w'))
             /\ length (proxyPool (state w')) <= 34 + BATCH
         | (Throw _, _) =>
             proxyPool (state w') = proxyPool (state w)
             /\ set_log [] (state w') = set_log [] (state w)
         end.
Proof.
  destruct (proxyRefreshing (state w)) eqn:H.
  - exists w. split; [|reflexivity].
    unfold refreshProxyPool, bind, get. now rewrite H.
  - destruct (refreshProxyPool_run env w H) as (w2 & w3 & E & Hrun).
    rewrite E. eexists. split; [reflexivity|].
    unfold refreshTry, bind in Hrun.
    destruct (refreshCollect env (snd (refreshEnter env w)))
      as [[[pool working]|e] w1] eqn:Hc.
    + destruct (refreshInstall_installs pool working env w1)
        as (wi & Ei & Hp & Hw & Ht & Hl).
      cbn [fst snd] in Hrun. rewrite Ei in Hrun. destruct Hrun as [_ ->].
      cbn [state proxyPool proxyWorking proxyTested lastProxyRefresh
           set_proxyRefreshing].
      rewrite Hp, Hw, Ht, Hl.
      split; [reflexivity|]. split; [reflexivity|]. split; [reflexivity|].
      split; [discriminate|]. split; [lia|].
      apply (refreshCollect_bound _ _ Hc).
    + destruct (refreshProxyPool_failed env w H Hc) as (w' & E' & Hs & _).
      assert (Hp : proxyPool (state w') = proxyPool (state w)).
      { change (proxyPool (set_log [] (state w'))
                = proxyPool (set_log [] (state w))).
        now rewrite Hs. }
      rewrite E in E'. injection E' as Hw. rewrite Hw. split; [exact Hp|exact Hs].
Qed.

(** C1 (as the specification has it) fails: with a hundred candidates all
    of which pass their test, a refresh on the empty start-up state
    completes and leaves 45 proxies in the pool, more than the 35 of the
    target. *)
Lemma refresh_pool_exceeds_target :
  let w' := snd (refreshProxyPool Scenario.envAllGood Scenario.w0) in
  fst (refreshProxyPool Scenario.envAllGood Scenario.w0) = Ok tt
  /\ lastProxyRefresh (state w') <> None
  /\ length (proxyPool (state w')) = 45
  /\ ~ length (proxyPool (state w')) <= Spec.TARGET_POOL_SIZE.
Proof.
  assert (E : length (proxyPool
                (state (snd (refreshProxyPool Scenario.envAllGood Scenario.w0))))
              = 45) by (vm_compute; reflexivity).
  cbv zeta. rewrite E. repeat split.
  - vm_compute. discriminate.
  - unfold Spec.TARGET_POOL_SIZE. lia.
Qed.

(** The bound of 49 is reached: when the first three batches leave 34
    working proxies, the fourth batch is tested and all its fifteen
    members are added. *)
Example refresh_pool_reaches_49 :
  length (proxyPool
            (state (snd (refreshProxyPool Scenario.envPicky Scenario.w0))))
  = 34 + BATCH.
Proof. vm_compute. reflexivity. Qed.

(** ** Download *)

(** Unfold the combinators of the monad and compute. *)
Ltac run_with tac :=
  unfold try_catch, bind, log, now, random, ask, emit, modify, get, ret,
         throw, settle, sleep, when;
  tac.

Ltac run :=
  run_with ltac:(cbn -[js unshiftCapped DL_TIMEOUT N.ltb app roundKB
                       downloadViaProxy downloadDirect downloadAttempts makeHeaders
                       Unit01_to_Q scale nth_error]).

Lemma fetches_app a b : fetches (a ++ b) = fetches a ++ fetches b.
Proof. unfold fetches. apply flat_map_app. Qed.

Lemma makeHeaders_run extra env w :
  exists h,
    makeHeaders extra env w =
    (Ok h, {| state := state w; tick := 3 + tick w; trace := trace w;
              timers := timers w |}).
Proof. eexists. reflexivity. Qed.

(** The attempt through a proxy makes one request and returns. *)
Lemma downloadViaProxy_run ver fileUrl fname loader gameVer hdrs p env w :
  exists done w',
    downloadViaProxy ver fileUrl fname loader gameVer hdrs p env w
    = (Ok done, w')
    /\ trace w' = trace w ++ [EvFetch (downloadRequest fileUrl (Some p) hdrs)]
    /\ timers w' = timers w.
Proof.
  unfold downloadViaProxy, proxyFetch, fetch, checkOk, evict. run.
  fold (downloadRequest fileUrl (Some p) hdrs).
  destruct (net env (S (tick w)) _) as [res|e]; run; [|eauto].
  destruct (res_ok res); run; [|eauto].
  destruct (res_byteLength res) as [b|e]; run; [|eauto].
  destruct (b <? 100)%N; run; eauto.
Qed.

(** A body under 100 bytes through the proxy: the proxy is removed and
    the attempt reports that the direct attempt is to follow. *)
Lemma downloadViaProxy_small ver fileUrl fname loader gameVer hdrs p env w res b :
  net env (S (tick w)) (downloadRequest fileUrl (Some p) hdrs) = Ok res ->
  res_ok res = true -> res_byteLength res = Ok b -> (b <? 100)%N = true ->
  exists w' ts,
    downloadViaProxy ver fileUrl fname loader gameVer hdrs p env w
    = (Ok false, w')
    /\ trace w' = trace w ++ [EvFetch (downloadRequest fileUrl (Some p) hdrs)]
    /\ proxyPool (state w')
       = filter (fun q => negb (jsstring_eqb q p)) (proxyPool (state w))
    /\ hd_error (state_log (state w'))
       = Some {| entry_ts := ts;
                 entry_msg := MsgProxyDead p (ErrTooSmallBytes b);
                 entry_type := warn |}
    /\ proxyWorking (state w') = length (proxyPool (state w'))
    /\ downloads (state w') = downloads (state w)
    /\ dlFailed (state w') = dlFailed (state w)
    /\ lastDl (state w') = lastDl (state w).
Proof.
  intros Hnet Hok Hb Hlt.
  unfold downloadViaProxy, proxyFetch, fetch, checkOk, evict. run.
  fold (downloadRequest fileUrl (Some p) hdrs). rewrite Hnet. run.
  rewrite Hok. run. rewrite Hb. run. rewrite Hlt. run.
  eexists _, _. split; [reflexivity|]. cbn.
  split; [reflexivity|]. split; [reflexivity|].
  split; [apply unshiftCapped_head; lia|]. auto.
Qed.

(** The direct attempt makes one request, returns, leaves the pool and
    its count alone and writes one entry to the log.  It counts a download
    and records it as made [direct] when it reports success, and counts a
    failed download, leaving the record alone, when it does not. *)
Lemma downloadDirect_run ver fileUrl fname loader gameVer hdrs env w :
  exists done w' entry,
    downloadDirect ver fileUrl fname loader gameVer hdrs env w = (Ok done, w')
    /\ trace w' = trace w ++ [EvFetch (downloadRequest fileUrl None hdrs)]
    /\ timers w' = timers w
    /\ proxyPool (state w') = proxyPool (state w)
    /\ state_log (state w') = unshiftCapped 150 entry (state_log (state w))
    /\ proxyWorking (state w') = proxyWorking (state w)
    /\ if done
       then downloads (state w') = S (downloads (state w))
            /\ dlFailed (state w') = dlFailed (state w)
            /\ exists d, lastDl (state w') = Some d
                         /\ dl_via d = js "direct"
                         /\ dl_filename d = fname
       else downloads (state w') = downloads (state w)
            /\ dlFailed (state w') = S (dlFailed (state w))
            /\ lastDl (state w') = lastDl (state w).
Proof.
  unfold downloadDirect, directFetch, fetch, checkOk. run.
  fold (downloadRequest fileUrl None hdrs).
  destruct (net env (tick w) _) as [res|e]; run;
    [|eexists _, _, _; split; [reflexivity|]; cbn; auto 10].
  destruct (res_ok res); run;
    [|eexists _, _, _; split; [reflexivity|]; cbn; auto 10].
  destruct (res_byteLength res) as [b|e]; run;
    [|eexists _, _, _; split; [reflexivity|]; cbn; auto 10].
  destruct (b <? 100)%N; run;
    eexists _, _, _; (split; [reflexivity|]); cbn; [auto 10|].
  repeat (split; [reflexivity|]). eexists. cbn. auto.
Qed.

Lemma truthy_some (p : jsstring) : p <> [] -> truthy (Some p) = Some p.
Proof. destruct p; [congruence|reflexivity]. Qed.

(** The two attempts make no request but a proxied one followed by a
    direct one for the same file, and at most one of each. *)
Lemma downloadAttempts_run ver fileUrl fname loader gameVer hdrs env w :
  exists done w' l,
    downloadAttempts ver fileUrl fname loader gameVer hdrs env w = (Ok done, w')
    /\ trace w' = trace w ++ map EvFetch l
    /\ timers w' = timers w
    /\ ProxyThenDirect l
    /\ Forall (fun r => req_url r = fileUrl) l.
Proof.
  unfold downloadAttempts. unfold bind at 1.
  destruct (proxyPool (state w)) as [|p rest] eqn:Hpool.
  - rewrite (nextProxy_empty env w Hpool). cbn [truthy].
    unfold bind at 1. unfold bind at 1. rewrite log_run. unfold ret at 1.
    match goal with |- context [downloadDirect _ _ _ _ _ _ env ?w1] =>
      destruct (downloadDirect_run ver fileUrl fname loader gameVer hdrs env w1)
        as (done & w' & entry & E & Ht & Htm & _) end.
    rewrite E. exists done, w', [downloadRequest fileUrl None hdrs].
    cbn in Ht, Htm. repeat split; auto. 
  - rewrite (nextProxy_head env w Hpool).
    destruct p as [|c p]; cbn [truthy].
    + unfold bind at 1. unfold bind at 1. rewrite log_run. unfold ret at 1.
      match goal with |- context [downloadDirect _ _ _ _ _ _ env ?w1] =>
        destruct (downloadDirect_run ver fileUrl fname loader gameVer hdrs env w1)
          as (done & w' & entry & E & Ht & Htm & _) end.
      rewrite E. exists done, w', [downloadRequest fileUrl None hdrs].
      cbn in Ht, Htm. repeat split; auto.
    + unfold bind at 1.
      match goal with |- context [downloadViaProxy _ _ _ _ _ _ _ env ?w1] =>
        destruct (downloadViaProxy_run ver fileUrl fname loader gameVer hdrs
                    (c :: p) env w1) as (done1 & w1' & E1 & Ht1 & Htm1) end.
      rewrite E1. cbn in Ht1, Htm1. destruct done1.
      * exists true, w1', [downloadRequest fileUrl (Some (c :: p)) hdrs].
        repeat split; auto.
      * destruct (downloadDirect_run ver fileUrl fname loader gameVer hdrs env w1')
          as (done & w' & entry & E & Ht & Htm & _).
        rewrite E.
        exists done, w', [downloadRequest fileUrl (Some (c :: p)) hdrs;
                          downloadRequest fileUrl None hdrs].
        rewrite Ht, Ht1, Htm, Htm1, <- app_assoc.
        repeat split; auto. cbn. discriminate.
Qed.

Lemma scale_lt r n : 0 < n -> scale r n < n.
Proof.
  intros Hn. unfold scale. apply Nat.Div0.div_lt_upper_bound. nia.
Qed.

Lemma pickFile_In ver file : pickFile ver = Some file -> In file (files ver).
Proof.
  unfold pickFile. destruct (find primary (files ver)) as [f|] eqn:E.
  - intros H. injection H as <-. eapply find_some, E.
  - destruct (files ver); [discriminate|].
    intros H. injection H as <-. now left.
Qed.

Lemma pickFile_none ver : pickFile ver = None -> files ver = [].
Proof.
  unfold pickFile. destruct (find primary (files ver)); [discriminate|].
  destruct (files ver); [reflexivity|discriminate].
Qed.

(** Before its attempts, [downloadFile] makes no request: it ends there
    when there is no version, or no file in the version it picked, and
    otherwise goes on to the attempts for a file of a version of
    [state.versions], having written nothing but the log. *)
Lemma downloadFile_prefix env w :
  (exists r w',
     downloadFile env w = (r, w')
     /\ trace w' = trace w /\ timers w' = timers w
     /\ (versions (state w) = []
         \/ exists ver, In ver (versions (state w)) /\ files ver = []))
  \/ (exists ver file hdrs w1 ms,
        In ver (versions (state w))
        /\ pickFile ver = Some file
        /\ downloadFile env w
           = downloadAttempts ver (url file) (filename file)
               (firstOr (js "unknown") (loaders ver))
               (firstOr (js "?") (game_versions ver)) hdrs env w1
        /\ trace w1 = trace w ++ [EvSleep ms]
        /\ timers w1 = timers w
        /\ proxyPool (state w1) = proxyPool (state w)
        /\ set_log [] (state w1) = set_log [] (state w)).
Proof.
  unfold downloadFile, randEl, jitter. run.
  destruct (versions (state w)) as [|v0 vs] eqn:Hv.
  - left. eexists _, _. split; [reflexivity|]. cbn. auto.
  - destruct (nth_error (v0 :: vs) _) as [ver|] eqn:Hn; run.
    + assert (Hin : In ver (v0 :: vs)) by (eapply nth_error_In, Hn).
      destruct (pickFile ver) as [file|] eqn:Hf; run.
      * right.
        match goal with |- context [makeHeaders ?x env ?w1] =>
          destruct (makeHeaders_run x env w1) as (h & Eh) end.
        cbn [state tick trace timers] in Eh. rewrite Eh.
        eexists ver, file, _, _, _. split; [exact Hin|]. split; [exact Hf|].
        split; [reflexivity|]. cbn. auto.
      * left. eexists _, _. split; [reflexivity|]. cbn.
        repeat split. right. exists ver. split; [exact Hin|].
        now apply pickFile_none.
    + exfalso. apply nth_error_None in Hn.
      pose proof (@scale_lt (math_random env (tick w)) (length (v0 :: vs))) as Hs.
      cbn [length] in Hs, Hn. lia.
Qed.

Lemma unshiftCapped_second A cap (x y : A) l :
  2 <= cap -> hd_error l = Some y ->
  nth_error (unshiftCapped cap x l) 1 = Some y.
Proof.
  intros Hc Hl. destruct l as [|y' l]; [discriminate|].
  injection Hl as ->. unfold unshiftCapped. cbv zeta.
  destruct l as [|z l].
  - destruct (Nat.ltb_spec cap (length [x; y])) as [C|C]; [simpl in C; lia|].
    reflexivity.
  - destruct (cap <? length (x :: y :: z :: l)); reflexivity.
Qed.

Lemma filter_other_rotated p (rest : list jsstring) :
  filter (fun q => negb (jsstring_eqb q p)) (rest ++ [p])
  = filter (fun q => negb (jsstring_eqb q p)) rest.
Proof.
  rewrite filter_app. cbn. rewrite jsstring_eqb_refl. cbn. apply app_nil_r.
Qed.

(** The scenario of an undersized body through the proxy at the head of
    the pool. *)
Lemma downloadAttempts_small ver fileUrl fname loader gameVer hdrs env w
      p rest res b :
  proxyPool (state w) = p :: rest ->
  p <> [] ->
  (forall n req, req_agent req = Some (js "http://" ++ p) ->
                 net env n req = Ok res) ->
  res_ok res = true ->
  res_byteLength res = Ok b ->
  (b < 100)%N ->
  exists done w' ts,
    downloadAttempts ver fileUrl fname loader gameVer hdrs env w = (Ok done, w')
    /\ trace w' = trace w ++ [EvFetch (downloadRequest fileUrl (Some p) hdrs);
                              EvFetch (downloadRequest fileUrl None hdrs)]
    /\ ~ In p (proxyPool (state w'))
    /\ nth_error (state_log (state w')) 1
       = Some {| entry_ts := ts;
                 entry_msg := MsgProxyDead p (ErrTooSmallBytes b);
                 entry_type := warn |}
    /\ proxyPool (state w') = filter (fun q => negb (jsstring_eqb q p)) rest
    /\ proxyWorking (state w') = length (proxyPool (state w'))
    /\ if done
       then downloads (state w') = S (downloads (state w))
            /\ dlFailed (state w') = dlFailed (state w)
            /\ exists d, lastDl (state w') = Some d
                         /\ dl_via d = js "direct"
                         /\ dl_filename d = fname
       else downloads (state w') = downloads (state w)
            /\ dlFailed (state w') = S (dlFailed (state w))
            /\ lastDl (state w') = lastDl (state w).
Proof.
  intros Hpool Hp Hnet Hok Hb Hlt.
  unfold downloadAttempts. unfold bind at 1.
  rewrite (nextProxy_head env w Hpool). cbv beta iota.
  rewrite (truthy_some Hp). unfold bind at 1.
  match goal with |- context [downloadViaProxy _ _ _ _ _ _ _ env ?w1] =>
    destruct (@downloadViaProxy_small ver fileUrl fname loader gameVer hdrs
                p env w1 res b)
      as (w1' & ts & E1 & Ht1 & Hp1 & Hl1 & Hw1 & Hd1 & Hf1 & Hr1) end;
    auto.
  { now apply N.ltb_lt. }
  rewrite E1.
  destruct (downloadDirect_run ver fileUrl fname loader gameVer hdrs env w1')
    as (done & w' & entry & E & Ht & _ & Hp' & Hl' & Hw' & Hacc).
  rewrite E. exists done, w', ts. split; [reflexivity|].
  cbn in Ht1, Hp1, Hd1, Hf1, Hr1. rewrite filter_other_rotated in Hp1.
  rewrite Ht, Ht1, Hw', Hw1, Hp', Hp1, Hl', <- app_assoc.
  split; [reflexivity|]. split; [apply filter_other_absent|].
  split; [apply unshiftCapped_second; [lia|exact Hl1]|].
  split; [reflexivity|]. split; [reflexivity|].
  rewrite <- Hd1, <- Hf1, <- Hr1. exact Hacc.
Qed.

Lemma fetches_map_EvFetch l : fetches (map EvFetch l) = l.
Proof. induction l as [|r l IH]; cbn; [reflexivity|]. now f_equal. Qed.

Lemma fetches_after_sleep tr ms l :
  fetches ((tr ++ [EvSleep ms]) ++ map EvFetch l) = fetches tr ++ l.
Proof.
  rewrite !fetches_app, fetches_map_EvFetch. cbn. now rewrite app_nil_r.
Qed.

(** C4: a call of [downloadFile] makes at most one request through a
    proxy and at most one direct request, the direct one after the
    proxied one and for the same file.  When the pool starts with the
    proxy [p], every version lists a file and the body that comes through
    [p] is short of 100 bytes, the call makes both requests: the proxied
    download is logged as failed ("Too small"), [p] is removed from the
    pool, whose count follows, and the file is asked for again without a
    proxy.  The proxied attempt counts as no download: when the call
    reports success, one download has been counted and the record of the
    last download says [direct]; when it reports failure, no download has
    been counted, the record is what it was, and one failed download has
    been counted. *)
Theorem download_proxy_then_direct_once :
  (forall env w,
     exists r w' l,
       downloadFile env w = (r, w')
       /\ fetches (trace w') = fetches (trace w) ++ l
       /\ ProxyThenDirect l)
  /\ (forall env w p rest res b,
        versions (state w) <> [] ->
        Forall (fun ver => files ver <> []) (versions (state w)) ->
        proxyPool (state w) = p :: rest ->
        p <> [] ->
        (forall n req, req_agent req = Some (js "http://" ++ p) ->
                       net env n req = Ok res) ->
        res_ok res = true ->
        res_byteLength res = Ok b ->
        (b < 100)%N ->
        exists done w' fileUrl hdrs ts,
          downloadFile env w = (Ok done, w')
          /\ fetches (trace w')
             = fetches (trace w) ++ [ downloadRequest fileUrl (Some p) hdrs;
                                      downloadRequest fileUrl None hdrs ]
          /\ ~ In p (proxyPool (state w'))
          /\ nth_error (state_log (state w')) 1
             = Some {| entry_ts := ts;
                       entry_msg := MsgProxyDead p (ErrTooSmallBytes b);
                       entry_type := warn |}
          /\ proxyPool (state w')
             = filter (fun q => negb (jsstring_eqb q p)) rest
          /\ proxyWorking (state w') = length (proxyPool (state w'))
          /\ if done
             then downloads (state w') = S (downloads (state w))
                  /\ dlFailed (state w') = dlFailed (state w)
                  /\ exists d, lastDl (state w') = Some d
                               /\ dl_via d = js "direct"
                               /\ In (dl_filename d)
                                     (map filename
                                        (flat_map files (versions (state w))))
             else downloads (state w') = downloads (state w)
                  /\ dlFailed (state w') = S (dlFailed (state w))
                  /\ lastDl (state w') = lastDl (state w)).
Proof.
  split.
  - intros env w.
    destruct (downloadFile_prefix env w)
      as [(r & w' & E & Ht & _)
         |(ver & file & hdrs & w1 & ms & _ & _ & E & Ht & _)].
    + exists r, w', []. rewrite E, Ht, app_nil_r. cbn. auto.
    + destruct (downloadAttempts_run ver (url file) (filename file)
                  (firstOr (js "unknown") (loaders ver))
                  (firstOr (js "?") (game_versions ver)) hdrs env w1)
        as (done & w' & l & E' & Ht' & _ & Hl & _).
      exists (Ok done), w', l. rewrite E, E', Ht', Ht, fetches_after_sleep.
      auto.
  - intros env w p rest res b Hv Hfiles Hpool Hp Hnet Hok Hb Hlt.
    destruct (downloadFile_prefix env w)
      as [(r & w' & E & Ht & _ & [Hnil|(ver & Hin & Hnofile)])
         |(ver & file & hdrs & w1 & ms & Hin & Hfile & E & Ht & _ & Hpool1 & Hs)].
    + contradiction.
    + rewrite Forall_forall in Hfiles. now apply Hfiles in Hin.
    + rewrite <- Hpool1 in Hpool.
      destruct (@downloadAttempts_small ver (url file) (filename file)
                  (firstOr (js "unknown") (loaders ver))
                  (firstOr (js "?") (game_versions ver)) hdrs env w1
                  p rest res b Hpool Hp Hnet Hok Hb Hlt)
        as (done & w' & ts & E' & Ht' & Hout & Hlog & Hp' & Hw' & Hacc).
      assert (Hf : forall X (f : State -> X),
                 (forall s, f (set_log [] s) = f s) ->
                 f (state w1) = f (state w)).
      { intros X f Hf. rewrite <- (Hf (state w1)), <- (Hf (state w)).
        now rewrite Hs. }
      rewrite (Hf _ downloads), (Hf _ dlFailed), (Hf _ lastDl) in Hacc
        by reflexivity.
      exists done, w', (url file), hdrs, ts. rewrite E, E', Ht', Ht.
      change [EvFetch (downloadRequest (url file) (Some p) hdrs);
              EvFetch (downloadRequest (url file) None hdrs)]
        with (map EvFetch [downloadRequest (url file) (Some p) hdrs;
                           downloadRequest (url file) None hdrs]).
      rewrite fetches_after_sleep.
      repeat (split; [solve [auto]|]).
      destruct done; [|exact Hacc].
      destruct Hacc as (Hd & Hfl & d & Hr & Hvia & Hname).
      split; [exact Hd|]. split; [exact Hfl|].
      exists d. split; [exact Hr|]. split; [exact Hvia|].
      rewrite Hname. apply in_map, in_flat_map. exists ver.
      split; [exact Hin|]. eapply pickFile_In, Hfile.
Qed.

Lemma download_proxy_then_direct_once_witness :
  versions (state Scenario.wDownload) <> []
  /\ proxyPool (state Scenario.wDownload) = [ js "1.2.3.4:8080" ]
  /\ res_byteLength Scenario.fiftyBytes = Ok 50%N
  /\ exists w' fileUrl hdrs,
       downloadFile Scenario.envFifty Scenario.wDownload = (Ok false, w')
       /\ fetches (trace w')
          = [ downloadRequest fileUrl (Some (js "1.2.3.4:8080")) hdrs;
              downloadRequest fileUrl None hdrs ]
       /\ proxyPool (state w') = []
       /\ proxyWorking (state w') = 0
       /\ downloads (state w') = 0
       /\ dlFailed (state w') = 1
       /\ lastDl (state w') = None.
Proof.
  assert (Hv : versions (state Scenario.wDownload) <> []) by discriminate.
  assert (Hf : Forall (fun ver => files ver <> [])
                      (versions (state Scenario.wDownload))).
  { repeat constructor. discriminate. }
  assert (Hpool : proxyPool (state Scenario.wDownload) = [ js "1.2.3.4:8080" ])
    by reflexivity.
  assert (Hp : js "1.2.3.4:8080" <> []) by discriminate.
  assert (Hb : res_byteLength Scenario.fiftyBytes = Ok 50%N) by reflexivity.
  split; [exact Hv|]. split; [exact Hpool|]. split; [exact Hb|].
  destruct (proj2 download_proxy_then_direct_once Scenario.envFifty
              Scenario.wDownload (js "1.2.3.4:8080") [] Scenario.fiftyBytes
              50%N Hv Hf Hpool Hp (fun _ _ _ => eq_refl) eq_refl Hb eq_refl)
    as (done & w' & fileUrl & hdrs & ts & E & Ht & _ & _ & Hp' & Hw' & Hacc).
  assert (Hdone : fst (downloadFile Scenario.envFifty Scenario.wDownload)
                  = Ok false) by (vm_compute; reflexivity).
  rewrite E in Hdone. cbn [fst] in Hdone. injection Hdone as ->.
  destruct Hacc as (Hd & Hfl & Hr).
  exists w', fileUrl, hdrs. rewrite Hw', Hp'.
  repeat (split; [solve [auto]|]). exact Hr.
Defined.

(** ** Cycle controller *)


















(** ** The random sort is a rearrangement *)

Lemma insertRanked_Permutation A (x : nat * A) l :
  Permutation (insertRanked x l) (x :: l).
Proof.
  induction l as [|y l IH]; simpl; [reflexivity|].
  destruct (fst x <? fst y); [reflexivity|].
  rewrite IH. apply perm_swap.
Qed.

Lemma map_snd_combine A B (l1 : list A) : forall l2 : list B,
  length l1 = length l2 -> map snd (combine l1 l2) = l2.
Proof.
  induction l1 as [|a l1 IH]; intros [|b l2] H; simpl in *;
    try reflexivity; try discriminate.
  f_equal. apply IH. lia.
Qed.

(** Whatever ranks the oracle gives, [arr.sort(() => Math.random() - 0.5)]
    returns the elements of [arr], each as often as it is in [arr]. *)
Lemma sortRandom_Permutation A (arr : list A) env w :
  exists sorted w',
    sortRandom arr env w = (Ok sorted, w') /\ Permutation sorted arr.
Proof.
  unfold sortRandom, bind, ask, ret. eexists _, _. split; [reflexivity|].
  cbn [tick].
  set (ranked := combine (map (sort_rank env (tick w)) (seq 0 (length arr))) arr).
  assert (H : Permutation (fold_right (@insertRanked A) [] ranked) ranked).
  { induction ranked as [|x l IH]; simpl; [reflexivity|].
    rewrite insertRanked_Permutation. now constructor. }
  rewrite (Permutation_map snd H). unfold ranked.
  rewrite map_snd_combine; [reflexivity|].
  now rewrite length_map, length_seq.
Qed.
